(** * HeMilch QTE combat core: a shallow embedding of the fighter, the
      combat-resolution pass, the heatmap solidity query and the NPC
      controller, with the properties the design document states about them.

    Sources embedded here:
    - [src/qte/fighter.ts]   : class [Fighter] ([rect], [hitbox], [update],
                               [landAt], [takeDamage], [receiveHit]) and the
                               fields of [Projectile] read by the game loop;
    - the game loop (TypeScript, [loop] and [isSolidAtCanvasPoint]) : the
                               melee and projectile collision blocks, the
                               respawn reset and the automatic defeat;
    - [src/qte/simpleAi.ts]  : class [SimpleAI] ([isPlayerInSight], [update]).

    Modelling conventions.
    - A JavaScript [number] is an exact rational ([Q]); hit counts and pixel
      indices that the code keeps integral are [Z].  IEEE rounding, NaN and
      the infinities are outside the model; a division by zero, which the
      code never performs on the inputs used below, follows [Qdiv].
    - The methods mutate [this]; here every method is a function from the
      fighter before the call to the fighter after it, and the statements of
      a method body appear as a chain of [let f := ... in].
    - The sprite animator ([this.anim]), the blast list and the console are
      written but never read back by the code modelled here, so they are
      left out.  Whatever the code reads from the outside world (the clock
      [performance.now()], pixels of the heatmap canvas) is an explicit
      argument. *)

From Stdlib Require Import ZArith QArith Qround Qabs Lqa Lia Bool List.
From stdpp Require Import base strings gmap.
Import ListNotations.
Open Scope Q_scope.

(** ** Numbers *)

Definition Qltb (a b : Q) : bool := negb (Qle_bool b a).
Definition Qleb (a b : Q) : bool := Qle_bool a b.
Definition Qgtb (a b : Q) : bool := Qltb b a.
Definition Qgeb (a b : Q) : bool := Qleb b a.

(** [Math.max], [Math.min], [Math.sign], [Math.floor], [Math.ceil] and
    [Math.round] (round half up) on rationals. *)
Definition Math_max (a b : Q) : Q := if Qleb a b then b else a.
Definition Math_min (a b : Q) : Q := if Qleb a b then a else b.
Definition Math_sign (a : Q) : Q :=
  if Qltb 0 a then 1 else if Qltb a 0 then -1 else 0.
Definition Math_floor (a : Q) : Z := Qfloor a.
Definition Math_ceil (a : Q) : Z := Qceiling a.
Definition Math_round (a : Q) : Z := Qfloor (a + (1 # 2)).

(** ** The fighter *)

(** The values the code stores in [Fighter.state]. *)
Inductive FState : Type :=
  | Idle | Walk | Jump | Fly | Attack1 | Attack2 | Ranged1 | Ranged2
  | Parry | Defeat.

#[global] Instance FState_eq_dec : EqDecision FState.
Proof. solve_decision. Defined.

(** The argument [angleRad] of [receiveHit] is only ever passed to
    [Math.cos] and [Math.sin]; an angle is represented by these two values.
    The game loop passes [Math.PI] or [0]; the sine of [Math.PI] is taken as
    exactly 0. *)
Record Angle : Type := mkAngle { cosA : Q; sinA : Q }.
Definition Math_PI : Angle := mkAngle (-1) 0.
Definition angle0 : Angle := mkAngle 1 0.

Record Fighter : Type := mkFighter {
  x : Q;  (* top-left corner of the sprite, canvas pixels *)
  y : Q;
  w : Q;
  h : Q;
  vx : Q;
  vy : Q;
  facing : Z;  (* 1 or -1 *)
  hp : Z;  (* hit count; 3 hits to defeat *)
  maxHp : Z;
  damagePercent : Q;  (* percent damage, 0..inf *)
  stocks : Z;  (* number of lives *)
  onGround : bool;
  state : FState;  (* the string field `state` *)
  attacking1 : bool;  (* action flags *)
  attacking2 : bool;
  parrying : bool;
  ranging1 : bool;
  ranging2 : bool;
  attack1Launched : bool;
  attack2Launched : bool;
  hurt : bool;
  flying : bool;
  flySpeed : Q;
  jumpStartTime : option Q;  (* the ad-hoc `_jumpStartTime` property *)
  allowGroundCollision : bool;
  canvasW : Q;  (* private canvasW and canvasH *)
  canvasH : Q;
  attack1Timer : Q;  (* timers, in seconds *)
  attack2Timer : Q;
  ranged1Timer : Q;
  ranged2Timer : Q;
  parryTimer : Q;
  parryFreezeTimer : Q;
  parryCooldown : Q;
  stunTimer : Q;
  hurtTimer : Q;
  parryConsumed : bool;
  parryDurationDefault : Q;
  launchedFromHit : bool  (* set by a high-percent hit until landing *)
}.

(** Field assignments [this.field = v]. *)
Definition set_x (v : Q) (f : Fighter) : Fighter :=
  mkFighter v (y f) (w f) (h f) (vx f) (vy f) (facing f) (hp f) (maxHp f)
    (damagePercent f) (stocks f) (onGround f) (state f) (attacking1 f)
    (attacking2 f) (parrying f) (ranging1 f) (ranging2 f) (attack1Launched f)
    (attack2Launched f) (hurt f) (flying f) (flySpeed f) (jumpStartTime f)
    (allowGroundCollision f) (canvasW f) (canvasH f) (attack1Timer f)
    (attack2Timer f) (ranged1Timer f) (ranged2Timer f) (parryTimer f)
    (parryFreezeTimer f) (parryCooldown f) (stunTimer f) (hurtTimer f)
    (parryConsumed f) (parryDurationDefault f) (launchedFromHit f).
Definition set_y (v : Q) (f : Fighter) : Fighter :=
  mkFighter (x f) v (w f) (h f) (vx f) (vy f) (facing f) (hp f) (maxHp f)
    (damagePercent f) (stocks f) (onGround f) (state f) (attacking1 f)
    (attacking2 f) (parrying f) (ranging1 f) (ranging2 f) (attack1Launched f)
    (attack2Launched f) (hurt f) (flying f) (flySpeed f) (jumpStartTime f)
    (allowGroundCollision f) (canvasW f) (canvasH f) (attack1Timer f)
    (attack2Timer f) (ranged1Timer f) (ranged2Timer f) (parryTimer f)
    (parryFreezeTimer f) (parryCooldown f) (stunTimer f) (hurtTimer f)
    (parryConsumed f) (parryDurationDefault f) (launchedFromHit f).
Definition set_vx (v : Q) (f : Fighter) : Fighter :=
  mkFighter (x f) (y f) (w f) (h f) v (vy f) (facing f) (hp f) (maxHp f)
    (damagePercent f) (stocks f) (onGround f) (state f) (attacking1 f)
    (attacking2 f) (parrying f) (ranging1 f) (ranging2 f) (attack1Launched f)
    (attack2Launched f) (hurt f) (flying f) (flySpeed f) (jumpStartTime f)
    (allowGroundCollision f) (canvasW f) (canvasH f) (attack1Timer f)
    (attack2Timer f) (ranged1Timer f) (ranged2Timer f) (parryTimer f)
    (parryFreezeTimer f) (parryCooldown f) (stunTimer f) (hurtTimer f)
    (parryConsumed f) (parryDurationDefault f) (launchedFromHit f).
Definition set_vy (v : Q) (f : Fighter) : Fighter :=
  mkFighter (x f) (y f) (w f) (h f) (vx f) v (facing f) (hp f) (maxHp f)
    (damagePercent f) (stocks f) (onGround f) (state f) (attacking1 f)
    (attacking2 f) (parrying f) (ranging1 f) (ranging2 f) (attack1Launched f)
    (attack2Launched f) (hurt f) (flying f) (flySpeed f) (jumpStartTime f)
    (allowGroundCollision f) (canvasW f) (canvasH f) (attack1Timer f)
    (attack2Timer f) (ranged1Timer f) (ranged2Timer f) (parryTimer f)
    (parryFreezeTimer f) (parryCooldown f) (stunTimer f) (hurtTimer f)
    (parryConsumed f) (parryDurationDefault f) (launchedFromHit f).
Definition set_facing (v : Z) (f : Fighter) : Fighter :=
  mkFighter (x f) (y f) (w f) (h f) (vx f) (vy f) v (hp f) (maxHp f)
    (damagePercent f) (stocks f) (onGround f) (state f) (attacking1 f)
    (attacking2 f) (parrying f) (ranging1 f) (ranging2 f) (attack1Launched f)
    (attack2Launched f) (hurt f) (flying f) (flySpeed f) (jumpStartTime f)
    (allowGroundCollision f) (canvasW f) (canvasH f) (attack1Timer f)
    (attack2Timer f) (ranged1Timer f) (ranged2Timer f) (parryTimer f)
    (parryFreezeTimer f) (parryCooldown f) (stunTimer f) (hurtTimer f)
    (parryConsumed f) (parryDurationDefault f) (launchedFromHit f).
Definition set_hp (v : Z) (f : Fighter) : Fighter :=
  mkFighter (x f) (y f) (w f) (h f) (vx f) (vy f) (facing f) v (maxHp f)
    (damagePercent f) (stocks f) (onGround f) (state f) (attacking1 f)
    (attacking2 f) (parrying f) (ranging1 f) (ranging2 f) (attack1Launched f)
    (attack2Launched f) (hurt f) (flying f) (flySpeed f) (jumpStartTime f)
    (allowGroundCollision f) (canvasW f) (canvasH f) (attack1Timer f)
    (attack2Timer f) (ranged1Timer f) (ranged2Timer f) (parryTimer f)
    (parryFreezeTimer f) (parryCooldown f) (stunTimer f) (hurtTimer f)
    (parryConsumed f) (parryDurationDefault f) (launchedFromHit f).
Definition set_maxHp (v : Z) (f : Fighter) : Fighter :=
  mkFighter (x f) (y f) (w f) (h f) (vx f) (vy f) (facing f) (hp f) v
    (damagePercent f) (stocks f) (onGround f) (state f) (attacking1 f)
    (attacking2 f) (parrying f) (ranging1 f) (ranging2 f) (attack1Launched f)
    (attack2Launched f) (hurt f) (flying f) (flySpeed f) (jumpStartTime f)
    (allowGroundCollision f) (canvasW f) (canvasH f) (attack1Timer f)
    (attack2Timer f) (ranged1Timer f) (ranged2Timer f) (parryTimer f)
    (parryFreezeTimer f) (parryCooldown f) (stunTimer f) (hurtTimer f)
    (parryConsumed f) (parryDurationDefault f) (launchedFromHit f).
Definition set_damagePercent (v : Q) (f : Fighter) : Fighter :=
  mkFighter (x f) (y f) (w f) (h f) (vx f) (vy f) (facing f) (hp f) (maxHp f)
    v (stocks f) (onGround f) (state f) (attacking1 f) (attacking2 f)
    (parrying f) (ranging1 f) (ranging2 f) (attack1Launched f)
    (attack2Launched f) (hurt f) (flying f) (flySpeed f) (jumpStartTime f)
    (allowGroundCollision f) (canvasW f) (canvasH f) (attack1Timer f)
    (attack2Timer f) (ranged1Timer f) (ranged2Timer f) (parryTimer f)
    (parryFreezeTimer f) (parryCooldown f) (stunTimer f) (hurtTimer f)
    (parryConsumed f) (parryDurationDefault f) (launchedFromHit f).
Definition set_stocks (v : Z) (f : Fighter) : Fighter :=
  mkFighter (x f) (y f) (w f) (h f) (vx f) (vy f) (facing f) (hp f) (maxHp f)
    (damagePercent f) v (onGround f) (state f) (attacking1 f) (attacking2 f)
    (parrying f) (ranging1 f) (ranging2 f) (attack1Launched f)
    (attack2Launched f) (hurt f) (flying f) (flySpeed f) (jumpStartTime f)
    (allowGroundCollision f) (canvasW f) (canvasH f) (attack1Timer f)
    (attack2Timer f) (ranged1Timer f) (ranged2Timer f) (parryTimer f)
    (parryFreezeTimer f) (parryCooldown f) (stunTimer f) (hurtTimer f)
    (parryConsumed f) (parryDurationDefault f) (launchedFromHit f).
Definition set_onGround (v : bool) (f : Fighter) : Fighter :=
  mkFighter (x f) (y f) (w f) (h f) (vx f) (vy f) (facing f) (hp f) (maxHp f)
    (damagePercent f) (stocks f) v (state f) (attacking1 f) (attacking2 f)
    (parrying f) (ranging1 f) (ranging2 f) (attack1Launched f)
    (attack2Launched f) (hurt f) (flying f) (flySpeed f) (jumpStartTime f)
    (allowGroundCollision f) (canvasW f) (canvasH f) (attack1Timer f)
    (attack2Timer f) (ranged1Timer f) (ranged2Timer f) (parryTimer f)
    (parryFreezeTimer f) (parryCooldown f) (stunTimer f) (hurtTimer f)
    (parryConsumed f) (parryDurationDefault f) (launchedFromHit f).
Definition set_state (v : FState) (f : Fighter) : Fighter :=
  mkFighter (x f) (y f) (w f) (h f) (vx f) (vy f) (facing f) (hp f) (maxHp f)
    (damagePercent f) (stocks f) (onGround f) v (attacking1 f) (attacking2 f)
    (parrying f) (ranging1 f) (ranging2 f) (attack1Launched f)
    (attack2Launched f) (hurt f) (flying f) (flySpeed f) (jumpStartTime f)
    (allowGroundCollision f) (canvasW f) (canvasH f) (attack1Timer f)
    (attack2Timer f) (ranged1Timer f) (ranged2Timer f) (parryTimer f)
    (parryFreezeTimer f) (parryCooldown f) (stunTimer f) (hurtTimer f)
    (parryConsumed f) (parryDurationDefault f) (launchedFromHit f).
Definition set_attacking1 (v : bool) (f : Fighter) : Fighter :=
  mkFighter (x f) (y f) (w f) (h f) (vx f) (vy f) (facing f) (hp f) (maxHp f)
    (damagePercent f) (stocks f) (onGround f) (state f) v (attacking2 f)
    (parrying f) (ranging1 f) (ranging2 f) (attack1Launched f)
    (attack2Launched f) (hurt f) (flying f) (flySpeed f) (jumpStartTime f)
    (allowGroundCollision f) (canvasW f) (canvasH f) (attack1Timer f)
    (attack2Timer f) (ranged1Timer f) (ranged2Timer f) (parryTimer f)
    (parryFreezeTimer f) (parryCooldown f) (stunTimer f) (hurtTimer f)
    (parryConsumed f) (parryDurationDefault f) (launchedFromHit f).
Definition set_attacking2 (v : bool) (f : Fighter) : Fighter :=
  mkFighter (x f) (y f) (w f) (h f) (vx f) (vy f) (facing f) (hp f) (maxHp f)
    (damagePercent f) (stocks f) (onGround f) (state f) (attacking1 f) v
    (parrying f) (ranging1 f) (ranging2 f) (attack1Launched f)
    (attack2Launched f) (hurt f) (flying f) (flySpeed f) (jumpStartTime f)
    (allowGroundCollision f) (canvasW f) (canvasH f) (attack1Timer f)
    (attack2Timer f) (ranged1Timer f) (ranged2Timer f) (parryTimer f)
    (parryFreezeTimer f) (parryCooldown f) (stunTimer f) (hurtTimer f)
    (parryConsumed f) (parryDurationDefault f) (launchedFromHit f).
Definition set_parrying (v : bool) (f : Fighter) : Fighter :=
  mkFighter (x f) (y f) (w f) (h f) (vx f) (vy f) (facing f) (hp f) (maxHp f)
    (damagePercent f) (stocks f) (onGround f) (state f) (attacking1 f)
    (attacking2 f) v (ranging1 f) (ranging2 f) (attack1Launched f)
    (attack2Launched f) (hurt f) (flying f) (flySpeed f) (jumpStartTime f)
    (allowGroundCollision f) (canvasW f) (canvasH f) (attack1Timer f)
    (attack2Timer f) (ranged1Timer f) (ranged2Timer f) (parryTimer f)
    (parryFreezeTimer f) (parryCooldown f) (stunTimer f) (hurtTimer f)
    (parryConsumed f) (parryDurationDefault f) (launchedFromHit f).
Definition set_ranging1 (v : bool) (f : Fighter) : Fighter :=
  mkFighter (x f) (y f) (w f) (h f) (vx f) (vy f) (facing f) (hp f) (maxHp f)
    (damagePercent f) (stocks f) (onGround f) (state f) (attacking1 f)
    (attacking2 f) (parrying f) v (ranging2 f) (attack1Launched f)
    (attack2Launched f) (hurt f) (flying f) (flySpeed f) (jumpStartTime f)
    (allowGroundCollision f) (canvasW f) (canvasH f) (attack1Timer f)
    (attack2Timer f) (ranged1Timer f) (ranged2Timer f) (parryTimer f)
    (parryFreezeTimer f) (parryCooldown f) (stunTimer f) (hurtTimer f)
    (parryConsumed f) (parryDurationDefault f) (launchedFromHit f).
Definition set_ranging2 (v : bool) (f : Fighter) : Fighter :=
  mkFighter (x f) (y f) (w f) (h f) (vx f) (vy f) (facing f) (hp f) (maxHp f)
    (damagePercent f) (stocks f) (onGround f) (state f) (attacking1 f)
    (attacking2 f) (parrying f) (ranging1 f) v (attack1Launched f)
    (attack2Launched f) (hurt f) (flying f) (flySpeed f) (jumpStartTime f)
    (allowGroundCollision f) (canvasW f) (canvasH f) (attack1Timer f)
    (attack2Timer f) (ranged1Timer f) (ranged2Timer f) (parryTimer f)
    (parryFreezeTimer f) (parryCooldown f) (stunTimer f) (hurtTimer f)
    (parryConsumed f) (parryDurationDefault f) (launchedFromHit f).
Definition set_attack1Launched (v : bool) (f : Fighter) : Fighter :=
  mkFighter (x f) (y f) (w f) (h f) (vx f) (vy f) (facing f) (hp f) (maxHp f)
    (damagePercent f) (stocks f) (onGround f) (state f) (attacking1 f)
    (attacking2 f) (parrying f) (ranging1 f) (ranging2 f) v (attack2Launched
    f) (hurt f) (flying f) (flySpeed f) (jumpStartTime f)
    (allowGroundCollision f) (canvasW f) (canvasH f) (attack1Timer f)
    (attack2Timer f) (ranged1Timer f) (ranged2Timer f) (parryTimer f)
    (parryFreezeTimer f) (parryCooldown f) (stunTimer f) (hurtTimer f)
    (parryConsumed f) (parryDurationDefault f) (launchedFromHit f).
Definition set_attack2Launched (v : bool) (f : Fighter) : Fighter :=
  mkFighter (x f) (y f) (w f) (h f) (vx f) (vy f) (facing f) (hp f) (maxHp f)
    (damagePercent f) (stocks f) (onGround f) (state f) (attacking1 f)
    (attacking2 f) (parrying f) (ranging1 f) (ranging2 f) (attack1Launched f)
    v (hurt f) (flying f) (flySpeed f) (jumpStartTime f) (allowGroundCollision
    f) (canvasW f) (canvasH f) (attack1Timer f) (attack2Timer f) (ranged1Timer
    f) (ranged2Timer f) (parryTimer f) (parryFreezeTimer f) (parryCooldown f)
    (stunTimer f) (hurtTimer f) (parryConsumed f) (parryDurationDefault f)
    (launchedFromHit f).
Definition set_hurt (v : bool) (f : Fighter) : Fighter :=
  mkFighter (x f) (y f) (w f) (h f) (vx f) (vy f) (facing f) (hp f) (maxHp f)
    (damagePercent f) (stocks f) (onGround f) (state f) (attacking1 f)
    (attacking2 f) (parrying f) (ranging1 f) (ranging2 f) (attack1Launched f)
    (attack2Launched f) v (flying f) (flySpeed f) (jumpStartTime f)
    (allowGroundCollision f) (canvasW f) (canvasH f) (attack1Timer f)
    (attack2Timer f) (ranged1Timer f) (ranged2Timer f) (parryTimer f)
    (parryFreezeTimer f) (parryCooldown f) (stunTimer f) (hurtTimer f)
    (parryConsumed f) (parryDurationDefault f) (launchedFromHit f).
Definition set_flying (v : bool) (f : Fighter) : Fighter :=
  mkFighter (x f) (y f) (w f) (h f) (vx f) (vy f) (facing f) (hp f) (maxHp f)
    (damagePercent f) (stocks f) (onGround f) (state f) (attacking1 f)
    (attacking2 f) (parrying f) (ranging1 f) (ranging2 f) (attack1Launched f)
    (attack2Launched f) (hurt f) v (flySpeed f) (jumpStartTime f)
    (allowGroundCollision f) (canvasW f) (canvasH f) (attack1Timer f)
    (attack2Timer f) (ranged1Timer f) (ranged2Timer f) (parryTimer f)
    (parryFreezeTimer f) (parryCooldown f) (stunTimer f) (hurtTimer f)
    (parryConsumed f) (parryDurationDefault f) (launchedFromHit f).
Definition set_jumpStartTime (v : option Q) (f : Fighter) : Fighter :=
  mkFighter (x f) (y f) (w f) (h f) (vx f) (vy f) (facing f) (hp f) (maxHp f)
    (damagePercent f) (stocks f) (onGround f) (state f) (attacking1 f)
    (attacking2 f) (parrying f) (ranging1 f) (ranging2 f) (attack1Launched f)
    (attack2Launched f) (hurt f) (flying f) (flySpeed f) v
    (allowGroundCollision f) (canvasW f) (canvasH f) (attack1Timer f)
    (attack2Timer f) (ranged1Timer f) (ranged2Timer f) (parryTimer f)
    (parryFreezeTimer f) (parryCooldown f) (stunTimer f) (hurtTimer f)
    (parryConsumed f) (parryDurationDefault f) (launchedFromHit f).
Definition set_attack1Timer (v : Q) (f : Fighter) : Fighter :=
  mkFighter (x f) (y f) (w f) (h f) (vx f) (vy f) (facing f) (hp f) (maxHp f)
    (damagePercent f) (stocks f) (onGround f) (state f) (attacking1 f)
    (attacking2 f) (parrying f) (ranging1 f) (ranging2 f) (attack1Launched f)
    (attack2Launched f) (hurt f) (flying f) (flySpeed f) (jumpStartTime f)
    (allowGroundCollision f) (canvasW f) (canvasH f) v (attack2Timer f)
    (ranged1Timer f) (ranged2Timer f) (parryTimer f) (parryFreezeTimer f)
    (parryCooldown f) (stunTimer f) (hurtTimer f) (parryConsumed f)
    (parryDurationDefault f) (launchedFromHit f).
Definition set_attack2Timer (v : Q) (f : Fighter) : Fighter :=
  mkFighter (x f) (y f) (w f) (h f) (vx f) (vy f) (facing f) (hp f) (maxHp f)
    (damagePercent f) (stocks f) (onGround f) (state f) (attacking1 f)
    (attacking2 f) (parrying f) (ranging1 f) (ranging2 f) (attack1Launched f)
    (attack2Launched f) (hurt f) (flying f) (flySpeed f) (jumpStartTime f)
    (allowGroundCollision f) (canvasW f) (canvasH f) (attack1Timer f) v
    (ranged1Timer f) (ranged2Timer f) (parryTimer f) (parryFreezeTimer f)
    (parryCooldown f) (stunTimer f) (hurtTimer f) (parryConsumed f)
    (parryDurationDefault f) (launchedFromHit f).
Definition set_ranged1Timer (v : Q) (f : Fighter) : Fighter :=
  mkFighter (x f) (y f) (w f) (h f) (vx f) (vy f) (facing f) (hp f) (maxHp f)
    (damagePercent f) (stocks f) (onGround f) (state f) (attacking1 f)
    (attacking2 f) (parrying f) (ranging1 f) (ranging2 f) (attack1Launched f)
    (attack2Launched f) (hurt f) (flying f) (flySpeed f) (jumpStartTime f)
    (allowGroundCollision f) (canvasW f) (canvasH f) (attack1Timer f)
    (attack2Timer f) v (ranged2Timer f) (parryTimer f) (parryFreezeTimer f)
    (parryCooldown f) (stunTimer f) (hurtTimer f) (parryConsumed f)
    (parryDurationDefault f) (launchedFromHit f).
Definition set_ranged2Timer (v : Q) (f : Fighter) : Fighter :=
  mkFighter (x f) (y f) (w f) (h f) (vx f) (vy f) (facing f) (hp f) (maxHp f)
    (damagePercent f) (stocks f) (onGround f) (state f) (attacking1 f)
    (attacking2 f) (parrying f) (ranging1 f) (ranging2 f) (attack1Launched f)
    (attack2Launched f) (hurt f) (flying f) (flySpeed f) (jumpStartTime f)
    (allowGroundCollision f) (canvasW f) (canvasH f) (attack1Timer f)
    (attack2Timer f) (ranged1Timer f) v (parryTimer f) (parryFreezeTimer f)
    (parryCooldown f) (stunTimer f) (hurtTimer f) (parryConsumed f)
    (parryDurationDefault f) (launchedFromHit f).
Definition set_parryTimer (v : Q) (f : Fighter) : Fighter :=
  mkFighter (x f) (y f) (w f) (h f) (vx f) (vy f) (facing f) (hp f) (maxHp f)
    (damagePercent f) (stocks f) (onGround f) (state f) (attacking1 f)
    (attacking2 f) (parrying f) (ranging1 f) (ranging2 f) (attack1Launched f)
    (attack2Launched f) (hurt f) (flying f) (flySpeed f) (jumpStartTime f)
    (allowGroundCollision f) (canvasW f) (canvasH f) (attack1Timer f)
    (attack2Timer f) (ranged1Timer f) (ranged2Timer f) v (parryFreezeTimer f)
    (parryCooldown f) (stunTimer f) (hurtTimer f) (parryConsumed f)
    (parryDurationDefault f) (launchedFromHit f).
Definition set_parryFreezeTimer (v : Q) (f : Fighter) : Fighter :=
  mkFighter (x f) (y f) (w f) (h f) (vx f) (vy f) (facing f) (hp f) (maxHp f)
    (damagePercent f) (stocks f) (onGround f) (state f) (attacking1 f)
    (attacking2 f) (parrying f) (ranging1 f) (ranging2 f) (attack1Launched f)
    (attack2Launched f) (hurt f) (flying f) (flySpeed f) (jumpStartTime f)
    (allowGroundCollision f) (canvasW f) (canvasH f) (attack1Timer f)
    (attack2Timer f) (ranged1Timer f) (ranged2Timer f) (parryTimer f) v
    (parryCooldown f) (stunTimer f) (hurtTimer f) (parryConsumed f)
    (parryDurationDefault f) (launchedFromHit f).
Definition set_parryCooldown (v : Q) (f : Fighter) : Fighter :=
  mkFighter (x f) (y f) (w f) (h f) (vx f) (vy f) (facing f) (hp f) (maxHp f)
    (damagePercent f) (stocks f) (onGround f) (state f) (attacking1 f)
    (attacking2 f) (parrying f) (ranging1 f) (ranging2 f) (attack1Launched f)
    (attack2Launched f) (hurt f) (flying f) (flySpeed f) (jumpStartTime f)
    (allowGroundCollision f) (canvasW f) (canvasH f) (attack1Timer f)
    (attack2Timer f) (ranged1Timer f) (ranged2Timer f) (parryTimer f)
    (parryFreezeTimer f) v (stunTimer f) (hurtTimer f) (parryConsumed f)
    (parryDurationDefault f) (launchedFromHit f).
Definition set_stunTimer (v : Q) (f : Fighter) : Fighter :=
  mkFighter (x f) (y f) (w f) (h f) (vx f) (vy f) (facing f) (hp f) (maxHp f)
    (damagePercent f) (stocks f) (onGround f) (state f) (attacking1 f)
    (attacking2 f) (parrying f) (ranging1 f) (ranging2 f) (attack1Launched f)
    (attack2Launched f) (hurt f) (flying f) (flySpeed f) (jumpStartTime f)
    (allowGroundCollision f) (canvasW f) (canvasH f) (attack1Timer f)
    (attack2Timer f) (ranged1Timer f) (ranged2Timer f) (parryTimer f)
    (parryFreezeTimer f) (parryCooldown f) v (hurtTimer f) (parryConsumed f)
    (parryDurationDefault f) (launchedFromHit f).
Definition set_hurtTimer (v : Q) (f : Fighter) : Fighter :=
  mkFighter (x f) (y f) (w f) (h f) (vx f) (vy f) (facing f) (hp f) (maxHp f)
    (damagePercent f) (stocks f) (onGround f) (state f) (attacking1 f)
    (attacking2 f) (parrying f) (ranging1 f) (ranging2 f) (attack1Launched f)
    (attack2Launched f) (hurt f) (flying f) (flySpeed f) (jumpStartTime f)
    (allowGroundCollision f) (canvasW f) (canvasH f) (attack1Timer f)
    (attack2Timer f) (ranged1Timer f) (ranged2Timer f) (parryTimer f)
    (parryFreezeTimer f) (parryCooldown f) (stunTimer f) v (parryConsumed f)
    (parryDurationDefault f) (launchedFromHit f).
Definition set_parryConsumed (v : bool) (f : Fighter) : Fighter :=
  mkFighter (x f) (y f) (w f) (h f) (vx f) (vy f) (facing f) (hp f) (maxHp f)
    (damagePercent f) (stocks f) (onGround f) (state f) (attacking1 f)
    (attacking2 f) (parrying f) (ranging1 f) (ranging2 f) (attack1Launched f)
    (attack2Launched f) (hurt f) (flying f) (flySpeed f) (jumpStartTime f)
    (allowGroundCollision f) (canvasW f) (canvasH f) (attack1Timer f)
    (attack2Timer f) (ranged1Timer f) (ranged2Timer f) (parryTimer f)
    (parryFreezeTimer f) (parryCooldown f) (stunTimer f) (hurtTimer f) v
    (parryDurationDefault f) (launchedFromHit f).
Definition set_launchedFromHit (v : bool) (f : Fighter) : Fighter :=
  mkFighter (x f) (y f) (w f) (h f) (vx f) (vy f) (facing f) (hp f) (maxHp f)
    (damagePercent f) (stocks f) (onGround f) (state f) (attacking1 f)
    (attacking2 f) (parrying f) (ranging1 f) (ranging2 f) (attack1Launched f)
    (attack2Launched f) (hurt f) (flying f) (flySpeed f) (jumpStartTime f)
    (allowGroundCollision f) (canvasW f) (canvasH f) (attack1Timer f)
    (attack2Timer f) (ranged1Timer f) (ranged2Timer f) (parryTimer f)
    (parryFreezeTimer f) (parryCooldown f) (stunTimer f) (hurtTimer f)
    (parryConsumed f) (parryDurationDefault f) v.

(** A fighter as the constructor leaves it (field initialisers of the
    class), placed at [(x0, y0)] on a canvas of size [cw] by [ch]. *)
Definition newFighter (x0 y0 cw ch : Q) : Fighter :=
  {| x := x0; y := y0; w := 256; h := 256; vx := 0; vy := 0; facing := 1;
     hp := 3; maxHp := 3; damagePercent := 0; stocks := 3; onGround := false;
     state := Idle;
     attacking1 := false; attacking2 := false; parrying := false;
     ranging1 := false; ranging2 := false;
     attack1Launched := false; attack2Launched := false;
     hurt := false; flying := false; flySpeed := 300;
     jumpStartTime := None;
     allowGroundCollision := true; canvasW := cw; canvasH := ch;
     attack1Timer := 0; attack2Timer := 0; ranged1Timer := 0;
     ranged2Timer := 0; parryTimer := 0; parryFreezeTimer := 0;
     parryCooldown := 0; stunTimer := 0; hurtTimer := 0;
     parryConsumed := false; parryDurationDefault := 0.25;
     launchedFromHit := false |}.

Definition isDefeatState (f : Fighter) : bool := bool_decide (state f = Defeat).

(** [private setState(s)]: the state changes unless it is [s] already (the
    animator call is not modelled). *)
Definition setState (s : FState) (f : Fighter) : Fighter :=
  if bool_decide (state f = s) then f else set_state s f.

(** The state the code derives from movement: [jump] in the air, [walk]
    when [|vx| > 1], [idle] otherwise. *)
Definition setDerivedState (f : Fighter) : Fighter :=
  if negb (onGround f) then setState Jump f
  else if Qgtb (Qabs (vx f)) 1 then setState Walk f
  else setState Idle f.

(** [isDefeated()] *)
Definition isDefeated (f : Fighter) : bool := (hp f <=? 0)%Z.

(** [takeDamage(amount)] *)
Definition takeDamage (amount : Z) (f : Fighter) : Fighter :=
  if (hp f <=? 0)%Z || isDefeatState f then f
  else
    let f := set_hp (Z.max 0 (hp f - amount)) f in
    let f := set_hurt true f in
    let f := set_hurtTimer 0.3 f in
    if (hp f <=? 0)%Z then
      let f := set_state Defeat f in
      set_maxHp 0%Z f
    else f.

(** The knockback magnitude [KB] of [receiveHit], with [dp] the damage
    percent after the hit was added:
    [scale = 6 * strength; k = 30; KB = baseKB + dp * scale + (dp * dp) / (k + dp)]. *)
Definition knockbackKB (baseKB strength dp : Q) : Q :=
  let scale := 6 * strength in
  let k := 30 in
  baseKB + dp * scale + (dp * dp) / (k + dp).

Definition globalKnockbackMultiplier : Q := 0.2.

(** [receiveHit(percentIncrease, baseKB, strength, angleRad?)] *)
Definition receiveHit (percentIncrease baseKB strength : Q)
    (angleRad : option Angle) (f : Fighter) : Fighter :=
  if isDefeatState f then f
  else
    let f := set_damagePercent (damagePercent f + percentIncrease) f in
    let dp := damagePercent f in
    let KB := knockbackKB baseKB strength dp in
    let attackerFromLeft :=
      match angleRad with Some a => Qltb (cosA a) 0 | None => false end in
    if Qltb dp 30 then
      let horizontalFactor := 0.12 * strength in
      let verticalFactor := 0.12 * strength in
      let ang :=
        match angleRad with
        | Some a => a
        | None => if (0 <? facing f)%Z then Math_PI else angle0
        end in
      let appliedVx := cosA ang * KB * horizontalFactor * globalKnockbackMultiplier in
      let appliedVy := - sinA ang * KB * verticalFactor * globalKnockbackMultiplier in
      let f := set_vx (vx f + appliedVx) f in
      let f := set_vy (vy f + appliedVy) f in
      let f := set_stunTimer (Math_max (stunTimer f) (0.25 * strength)) f in
      let f := set_hurt true f in
      set_hurtTimer 0.3 f
    else
      let clamped := Math_min (Math_max ((dp - 30) / 70) 0) 1 in
      let scaleMultiplier := 1 + clamped * 2 in
      let baseJumpVy := -350 in
      let baseHor := 150 in
      let appliedVy := baseJumpVy * scaleMultiplier * globalKnockbackMultiplier in
      let dir := if attackerFromLeft then 1 else -1 in
      let appliedVx := baseHor * scaleMultiplier * dir * globalKnockbackMultiplier in
      let f := set_vx appliedVx f in
      let f := set_vy appliedVy f in
      let f := set_onGround false f in
      let f := set_launchedFromHit true f in
      let f := set_hurt true f in
      let f := set_hurtTimer 0.45 f in
      set_stunTimer (Math_max (stunTimer f) (0.5 * strength)) f.

(** The landing reaction shared by the legacy ground test of [update] and by
    [landAt]: a fighter launched by a hit stops, and its hurt and stun end. *)
Definition landFromLaunch (f : Fighter) : Fighter :=
  if launchedFromHit f then
    let f := set_vx 0 f in
    let f := set_launchedFromHit false f in
    let f := set_hurt false f in
    let f := set_hurtTimer 0 f in
    let f := set_stunTimer 0 f in
    if negb (isDefeatState f) && negb (parrying f) then setState Idle f else f
  else f.

(** [landAt(yTop)] *)
Definition landAt (yTop : Q) (f : Fighter) : Fighter :=
  let f := set_y yTop f in
  let f := set_vy 0 f in
  let f := landFromLaunch f in
  set_onGround true f.

(** ** [Fighter.update] *)

(** What [update] reads from the merged input through the fighter's key
    map: [input[this.keys.left]] and so on, as truth values. *)
Record Input : Type := mkInput {
  i_left : bool; i_right : bool; i_up : bool; i_down : bool;
  i_attack1 : bool; i_attack2 : bool; i_parry : bool;
  i_ranged1 : bool; i_ranged2 : bool; i_dodge : bool
}.

Definition noInput : Input :=
  mkInput false false false false false false false false false false.

(** Truthiness of the [_jumpStartTime] property ([null], [undefined] and
    [0] are falsy). *)
Definition jumpStartSet (f : Fighter) : bool :=
  match jumpStartTime f with
  | Some t => negb (Qeq_bool t 0)
  | None => false
  end.

(** Start of flight: [if (dodgeHeld && !this.flying) { ... }]. *)
Definition startFlying (inp : Input) (f : Fighter) : Fighter :=
  if i_dodge inp && negb (flying f) then
    let f := set_flying true f in
    let f := set_state Fly f in
    let f := set_vy 0 f in
    set_onGround false f
  else f.

(** The branch [if (this.flying) { ... }]: free movement without gravity. *)
Definition flyMove (dt : Q) (inp : Input) (f : Fighter) : Fighter :=
  let f :=
    if i_left inp then set_facing (-1)%Z (set_vx (- flySpeed f) f)
    else if i_right inp then set_facing 1%Z (set_vx (flySpeed f) f)
    else set_vx 0 f in
  let f :=
    if i_up inp then set_vy (- flySpeed f) f
    else if i_down inp then set_vy (flySpeed f) f
    else set_vy 0 f in
  let f := set_x (x f + vx f * dt) f in
  let f := set_y (y f + vy f * dt) f in
  if negb (i_dodge inp) then
    let f := set_flying false f in
    setDerivedState f
  else f.

(** The [else] branch: walking, jumping and gravity.  [now] is the value of
    [performance.now()] (milliseconds). *)
Definition groundMove (dt now : Q) (inp : Input) (f : Fighter) : Fighter :=
  let f :=
    if Qleb (stunTimer f) 0 && negb (launchedFromHit f) then
      if i_left inp then set_facing (-1)%Z (set_vx (-150) f)
      else if i_right inp then set_facing 1%Z (set_vx 150 f)
      else set_vx 0 f
    else f in
  let f :=
    if onGround f && i_up inp then
      let f := if negb (jumpStartSet f) then set_jumpStartTime (Some now) f else f in
      let f := set_vy (-350) f in
      set_onGround false f
    else f in
  let f :=
    if negb (i_up inp) && jumpStartSet f then
      let jumpDuration :=
        now - match jumpStartTime f with Some t => t | None => 0 end in
      let f := if Qltb jumpDuration 100 && Qltb (vy f) 0 then set_vy (-175) f else f in
      set_jumpStartTime None f
    else f in
  let f := set_vy (vy f + 900 * dt) f in
  let f := set_x (x f + vx f * dt) f in
  set_y (y f + vy f * dt) f.

(** Ground friction. *)
Definition groundFriction : Q := 1200.

Definition applyFriction (dt : Q) (f : Fighter) : Fighter :=
  if onGround f && negb (launchedFromHit f) then
    if Qgtb (Qabs (vx f)) 0.001 then
      let dec := Math_sign (vx f) * groundFriction * dt in
      if Qgeb (Qabs dec) (Qabs (vx f)) then set_vx 0 f
      else set_vx (vx f - dec) f
    else set_vx 0 f
  else f.

(** Legacy ground collision at [canvasH - 40]. *)
Definition legacyGround (f : Fighter) : Fighter :=
  if allowGroundCollision f && Qgeb (y f + h f) (canvasH f - 40) then
    let f := set_y (canvasH f - 40 - h f) f in
    let f := set_vy 0 f in
    let f := landFromLaunch f in
    set_onGround true f
  else f.

(** The guard under which a parry starts. *)
Definition parryStarts (inp : Input) (f : Fighter) : bool :=
  i_parry inp && negb (parrying f) && negb (attacking1 f) && negb (attacking2 f)
  && negb (ranging1 f) && negb (ranging2 f) && negb (hurt f)
  && Qleb (parryCooldown f) 0.

Definition parryStep (dt : Q) (inp : Input) (f : Fighter) : Fighter :=
  let f :=
    if parryStarts inp f then
      let f := set_parrying true f in
      let f := setState Parry f in
      let f := set_parryTimer (parryDurationDefault f) f in
      let f := set_parryConsumed false f in
      set_parryCooldown 3 f
    else f in
  let f :=
    if parrying f then
      let f := set_parryTimer (parryTimer f - dt) f in
      if Qleb (parryTimer f) 0 then
        let f := set_parrying false f in
        setState Idle f
      else f
    else f in
  if Qgtb (parryCooldown f) 0
  then set_parryCooldown (Math_max 0 (parryCooldown f - dt)) f
  else f.

(** The guards under which a new attack instance starts. *)
Definition attack1Starts (inp : Input) (f : Fighter) : bool :=
  i_attack1 inp && negb (attacking1 f) && negb (parrying f).

Definition attack2Starts (inp : Input) (f : Fighter) : bool :=
  i_attack2 inp && negb (attacking2 f) && negb (parrying f).

Definition attack1Step (dt : Q) (inp : Input) (f : Fighter) : Fighter :=
  let f :=
    if attack1Starts inp f then
      let f := set_attacking1 true f in
      let f := set_state Attack1 f in
      let f := set_attack1Timer 0.35 f in
      set_attack1Launched false f
    else f in
  if attacking1 f then
    let f := set_attack1Timer (attack1Timer f - dt) f in
    if Qleb (attack1Timer f) 0 then set_attacking1 false f else f
  else f.

(** Both branches of the character test (granny or not) assign the same
    modelled fields. *)
Definition attack2Step (dt : Q) (inp : Input) (f : Fighter) : Fighter :=
  let f :=
    if attack2Starts inp f then
      let f := set_attacking2 true f in
      let f := set_state Attack2 f in
      let f := set_attack2Timer 0.35 f in
      set_attack2Launched false f
    else f in
  if attacking2 f then
    let f := set_attack2Timer (attack2Timer f - dt) f in
    if Qleb (attack2Timer f) 0 then set_attacking2 false f else f
  else f.

Definition ranged1Step (dt : Q) (inp : Input) (f : Fighter) : Fighter :=
  let f :=
    if i_ranged1 inp && negb (ranging1 f) && negb (parrying f) then
      let f := set_ranging1 true f in
      let f := set_state Ranged1 f in
      set_ranged1Timer 0.4 f
    else f in
  if ranging1 f then
    let f := set_ranged1Timer (ranged1Timer f - dt) f in
    if Qleb (ranged1Timer f) 0 then set_ranging1 false f else f
  else f.

Definition ranged2Step (inp : Input) (f : Fighter) : Fighter :=
  let f :=
    if i_ranged2 inp && negb (ranging2 f) && negb (parrying f) then
      let f := set_ranging2 true f in
      let f := set_state Ranged2 f in
      set_ranged2Timer 0.4 f
    else f in
  if ranging2 f then
    if i_ranged2 inp then f else set_ranging2 false f
  else f.

(** The block [if (!this.flying) { ... }] with all the actions. *)
Definition actions (dt : Q) (inp : Input) (f : Fighter) : Fighter :=
  if negb (flying f) then
    let f := parryStep dt inp f in
    let f := attack1Step dt inp f in
    let f := attack2Step dt inp f in
    let f := ranged1Step dt inp f in
    ranged2Step inp f
  else f.

Definition hurtStep (dt : Q) (f : Fighter) : Fighter :=
  if hurt f then
    let f := set_hurtTimer (hurtTimer f - dt) f in
    if Qleb (hurtTimer f) 0 then
      let f := set_hurt false f in
      if negb (isDefeatState f) && negb (parrying f) then setDerivedState f else f
    else f
  else f.

Definition stateFallback (f : Fighter) : Fighter :=
  if negb (flying f) && negb (attacking1 f) && negb (attacking2 f)
     && negb (ranging1 f) && negb (ranging2 f) && negb (hurt f)
     && negb (parrying f) && negb (isDefeatState f)
  then setDerivedState f
  else f.

(** [update(dt, input, projectiles, blasts)], restricted to the fighter
    itself: the projectiles it spawns depend on the animation frame and go
    to the list the caller owns. *)
Definition update (dt now : Q) (inp : Input) (f : Fighter) : Fighter :=
  let f := startFlying inp f in
  let f := if flying f then flyMove dt inp f else groundMove dt now inp f in
  let f := applyFriction dt f in
  let f := legacyGround f in
  let f := actions dt inp f in
  let f := hurtStep dt f in
  stateFallback f.

(** [rect()]: the centred hurtbox, half the sprite in each direction. *)
Record Rect : Type := mkRect { rx : Q; ry : Q; rw : Q; rh : Q }.

Definition rect (f : Fighter) : Rect :=
  let hurtW := Math_max 1 (inject_Z (Math_floor (w f * 0.5))) in
  let hurtH := Math_max 1 (inject_Z (Math_floor (h f * 0.5))) in
  let hurtX := x f + inject_Z (Math_floor ((w f - hurtW) * 0.5)) in
  let hurtY := y f + inject_Z (Math_floor ((h f - hurtH) * 0.5)) in
  mkRect hurtX hurtY hurtW hurtH.

(** [hitbox()]: present only in the states [attack1] and [attack2]. *)
Definition hitbox (f : Fighter) : option Rect :=
  if bool_decide (state f = Attack1) || bool_decide (state f = Attack2) then
    let aw := 60 in
    let ah := 40 in
    let ax := if (0 <? facing f)%Z then x f + w f - 10 else x f - (aw - 10) in
    let ay := y f + h f * 0.55 - ah * 0.5 in
    Some (mkRect ax ay aw ah)
  else None.

(** [aabb(a, b)] of the game loop. *)
Definition aabb (a b : Rect) : bool :=
  negb (Qltb (rx a + rw a) (rx b) || Qltb (rx b + rw b) (rx a)
        || Qltb (ry a + rh a) (ry b) || Qltb (ry b + rh b) (ry a)).

(** ** The heatmap solidity query of the game loop *)

(** The collaborators [isSolidAtCanvasPoint] reads: the 2D context of the
    heatmap canvas, the canvas itself, the stage image and the canvas size.
    [getImageData cx cy] is the [.data] array of
    [heatmapCtx.getImageData(cx, cy, 1, 1)], or [None] when the call throws. *)
Record HeatmapCtx : Type := mkHeatmapCtx {
  getImageData : Z -> Z -> option (list Z)
}.

Record Canvas : Type := mkCanvas { width : Z; height : Z }.

Record Image : Type := mkImage { naturalWidth : Z; naturalHeight : Z }.

Record Stage : Type := mkStage {
  heatmapCtx : option HeatmapCtx;
  heatmapCanvas : option Canvas;
  stageImg : option Image;
  WIDTH : Z;
  HEIGHT : Z
}.

(** Outcome of a block of statements that may throw. *)
Inductive Exc (A : Type) : Type :=
  | Returns (a : A)
  | Throws.
Arguments Returns {A} a.
Arguments Throws {A}.

Definition clampZ (lo hi v : Z) : Z := Z.max lo (Z.min hi v).

(** The source rectangle of the stage image that covers the canvas
    (CSS-cover): [(sx, sy, sw, sh)]. *)
Definition coverRect (env : Stage) (img : Image) : Z * Z * Z * Z :=
  let imgW := naturalWidth img in
  let imgH := naturalHeight img in
  let canvasRatio := inject_Z (WIDTH env) / inject_Z (HEIGHT env) in
  let imgRatio := inject_Z imgW / inject_Z imgH in
  if Qgtb imgRatio canvasRatio then
    let sw := Math_round (inject_Z imgH * canvasRatio) in
    let sx := Math_round (inject_Z (imgW - sw) * 0.5) in
    (sx, 0%Z, sw, imgH)
  else
    let sh := Math_round (inject_Z imgW / canvasRatio) in
    let sy := Math_round (inject_Z (imgH - sh) * 0.5) in
    (0%Z, sy, imgW, sh).

(** The heatmap pixel the query samples for a canvas point, after both
    clamps. *)
Definition samplePoint (env : Stage) (cv : Canvas) (img : Image)
    (canvasX canvasY : Q) : Z * Z :=
  let safeCanvasX := clampZ 0 (WIDTH env - 1) (Math_floor canvasX) in
  let safeCanvasY := clampZ 0 (HEIGHT env - 1) (Math_floor canvasY) in
  let '(sx, sy, sw, sh) := coverRect env img in
  let srcX :=
    Math_floor (inject_Z sx + (inject_Z safeCanvasX / inject_Z (WIDTH env)) * inject_Z sw) in
  let srcY :=
    Math_floor (inject_Z sy + (inject_Z safeCanvasY / inject_Z (HEIGHT env)) * inject_Z sh) in
  (clampZ 0 (width cv - 1) srcX, clampZ 0 (height cv - 1) srcY).

(** [d[3] > 128]; a missing component compares as [false]. *)
Definition alphaSolid (d : list Z) : bool :=
  match nth_error d 3 with
  | Some a => (128 <? a)%Z
  | None => false
  end.

(** The body of the [try] block. *)
Definition isSolidAtCanvasPoint_try (env : Stage) (canvasX canvasY : Q) : Exc bool :=
  match heatmapCtx env, heatmapCanvas env, stageImg env with
  | Some ctx, Some cv, Some img =>
      if (0 <? width cv)%Z && (0 <? naturalWidth img)%Z then
        let '(clampedSrcX, clampedSrcY) := samplePoint env cv img canvasX canvasY in
        match getImageData ctx clampedSrcX clampedSrcY with
        | Some d => Returns (alphaSolid d)
        | None => Throws
        end
      else Returns false
  | _, _, _ => Returns false
  end.

(** [isSolidAtCanvasPoint(canvasX, canvasY)]: the [catch] returns [false]. *)
Definition isSolidAtCanvasPoint (env : Stage) (canvasX canvasY : Q) : bool :=
  match isSolidAtCanvasPoint_try env canvasX canvasY with
  | Returns b => b
  | Throws => false
  end.

(** ** The combat-resolution pass of the game loop *)

Inductive Side : Type := P1 | P2.

#[global] Instance Side_eq_dec : EqDecision Side.
Proof. solve_decision. Defined.

Definition other (s : Side) : Side := match s with P1 => P2 | P2 => P1 end.

(** The fields of [Projectile] the pass reads or writes.  The owner is a
    reference to a fighter: one of the two combatants, or another fighter
    ([None]). *)
Record Projectile : Type := mkProjectile {
  pr_x : Q; pr_y : Q; pr_vx : Q;
  pr_alive : bool;
  pr_owner : option Side;
  applyKnockbackOnHit : bool
}.

Definition pr_rect (pr : Projectile) : Rect := mkRect (pr_x pr) (pr_y pr) 256 256.

Definition kill (pr : Projectile) : Projectile :=
  mkProjectile (pr_x pr) (pr_y pr) (pr_vx pr) false (pr_owner pr)
    (applyKnockbackOnHit pr).

(** The two combatants and what the pass needs besides them:
    [npcController] stands for [!!npcController], the single-player test. *)
Record World : Type := mkWorld {
  p1 : Fighter;
  p2 : Fighter;
  projectiles : list Projectile;
  npcController : bool;
  stage : Stage
}.

Definition fighter (s : Side) (wd : World) : Fighter :=
  match s with P1 => p1 wd | P2 => p2 wd end.

Definition set_fighter (s : Side) (f : Fighter) (wd : World) : World :=
  match s with
  | P1 => mkWorld f (p2 wd) (projectiles wd) (npcController wd) (stage wd)
  | P2 => mkWorld (p1 wd) f (projectiles wd) (npcController wd) (stage wd)
  end.

Definition set_projectiles (prs : list Projectile) (wd : World) : World :=
  mkWorld (p1 wd) (p2 wd) prs (npcController wd) (stage wd).

(** The per-instance flag an attack consumes:
    [attacker.attacking1 ? 'attack1Launched' : 'attack2Launched']. *)
Inductive LaunchFlag : Type := Attack1Launched | Attack2Launched.

#[global] Instance LaunchFlag_eq_dec : EqDecision LaunchFlag.
Proof. solve_decision. Defined.

Definition getLaunch (lf : LaunchFlag) (f : Fighter) : bool :=
  match lf with
  | Attack1Launched => attack1Launched f
  | Attack2Launched => attack2Launched f
  end.

Definition setLaunch (lf : LaunchFlag) (v : bool) (f : Fighter) : Fighter :=
  match lf with
  | Attack1Launched => set_attack1Launched v f
  | Attack2Launched => set_attack2Launched v f
  end.

(** Which branch of a melee block ran. *)
Inductive MeleeOutcome : Type :=
  | NoResolution                  (* the guards failed: nothing happened *)
  | ParryNegated (lf : LaunchFlag)   (* parried, attacker was ranging *)
  | ParryReflected (lf : LaunchFlag) (* parried, hit reflected to the attacker *)
  | MeleeHit (lf : LaunchFlag)       (* not parried: the defender is hit *)
  | Unresolved (lf : LaunchFlag).    (* flag consumed, neither branch *)

(** The guards around the body of a melee block: the attacker's hitbox
    (taken before the pass) overlaps the defender's hurtbox, the attacker
    is attacking and the flag of this attack instance is still unset. *)
Definition meleeGuard (hb : option Rect) (a d : Fighter) : option LaunchFlag :=
  match hb with
  | Some h1 =>
      if aabb h1 (rect d) then
        if attacking1 a || attacking2 a then
          let launchFlag := if attacking1 a then Attack1Launched else Attack2Launched in
          if negb (getLaunch launchFlag a) then Some launchFlag else None
        else None
      else None
  | None => None
  end.

(** [maxHp || 1] *)
Definition maxHpOr1 (f : Fighter) : Z := if (maxHp f =? 0)%Z then 1%Z else maxHp f.

(** One melee block: attacker [a] against defender [d]. *)
Definition meleeBlock (isSingleplayer : bool) (hb : option Rect) (a d : Fighter)
    : Fighter * Fighter * MeleeOutcome :=
  match meleeGuard hb a d with
  | Some launchFlag =>
      let a := setLaunch launchFlag true a in
      if parrying d && negb (parryConsumed d) then
        let d := set_parryConsumed true d in
        let d := set_parryFreezeTimer 0.15 d in
        if ranging1 a || ranging2 a then (a, d, ParryNegated launchFlag)
        else
          let ang := if Qltb (x d) (x a) then Math_PI else angle0 in
          (receiveHit 20 120 1 (Some ang) a, d, ParryReflected launchFlag)
      else if negb (parrying d) || parryConsumed d then
        if isSingleplayer then
          (a, takeDamage (Math_ceil (inject_Z (maxHpOr1 d) / 3)) d, MeleeHit launchFlag)
        else
          let ang := if Qltb (x a) (x d) then Math_PI else angle0 in
          (a, receiveHit 30 140 0.6 (Some ang) d, MeleeHit launchFlag)
      else (a, d, Unresolved launchFlag)
  | None => (a, d, NoResolution)
  end.

(** The melee part of the pass: both hitboxes are taken first, then P1's
    attack on P2 is resolved, then P2's attack on P1. *)
Definition meleePass (wd : World) : World * MeleeOutcome * MeleeOutcome :=
  let h1 := hitbox (p1 wd) in
  let h2 := hitbox (p2 wd) in
  let '(a1, d2, o1) := meleeBlock (npcController wd) h1 (p1 wd) (p2 wd) in
  let '(a2, d1, o2) := meleeBlock (npcController wd) h2 d2 a1 in
  (set_fighter P2 a2 (set_fighter P1 d1 wd), o1, o2).

(** Which branch of a projectile-versus-fighter test ran. *)
Inductive ProjOutcome : Type :=
  | ProjMiss      (* own projectile, or no overlap *)
  | ProjParried   (* negated by the defender's parry *)
  | ProjHit       (* resolved as a normal hit *)
  | ProjNeither.

(** [pr.owner.stunTimer = 1.2]; an owner other than the two combatants is
    outside the pair. *)
Definition stunOwner (o : option Side) (fs : Fighter * Fighter) : Fighter * Fighter :=
  match o with
  | Some P1 => (set_stunTimer 1.2 (fst fs), snd fs)
  | Some P2 => (fst fs, set_stunTimer 1.2 (snd fs))
  | None => fs
  end.

Definition getSide (s : Side) (fs : Fighter * Fighter) : Fighter :=
  match s with P1 => fst fs | P2 => snd fs end.

Definition putSide (s : Side) (f : Fighter) (fs : Fighter * Fighter) : Fighter * Fighter :=
  match s with P1 => (f, snd fs) | P2 => (fst fs, f) end.

(** A ranged hit that was not parried:
    [takeDamage(max(1, ceil((maxHp || 1) / 12)))], then the percent. *)
Definition rangedHit (pr : Projectile) (d : Fighter) : Fighter :=
  let hpDamage := Z.max 1 (Math_ceil (inject_Z (maxHpOr1 d) / 12)) in
  let d := takeDamage hpDamage d in
  if applyKnockbackOnHit pr then
    receiveHit 8 90 0.9 (Some (if Qltb (pr_vx pr) 0 then Math_PI else angle0)) d
  else set_damagePercent (damagePercent d + 8) d.

(** The test of projectile [pr] against the combatant on side [s]:
    [if (pr.owner !== p && aabb(pr.rect(), p.rect())) { ... }]. *)
Definition projAgainst (s : Side) (fs : Fighter * Fighter) (pr : Projectile)
    : Fighter * Fighter * Projectile * ProjOutcome :=
  let d := getSide s fs in
  if negb (bool_decide (pr_owner pr = Some s)) && aabb (pr_rect pr) (rect d) then
    if parrying d && negb (parryConsumed d) then
      let d := set_parryConsumed true d in
      let d := set_parryFreezeTimer 0.15 d in
      let fs := putSide s d fs in
      let fs := stunOwner (pr_owner pr) fs in
      (fs, kill pr, ProjParried)
    else if negb (parrying d) || parryConsumed d then
      (putSide s (rangedHit pr d) fs, kill pr, ProjHit)
    else (fs, pr, ProjNeither)
  else (fs, pr, ProjMiss).

(** One iteration of [for (const pr of projectiles)]: dead projectiles are
    skipped, a projectile whose bottom centre is on solid ground dies, and
    otherwise it is tested against P1 and then against P2. *)
Definition projStep (env : Stage) (fs : Fighter * Fighter) (pr : Projectile)
    : Fighter * Fighter * Projectile * ProjOutcome * ProjOutcome :=
  if negb (pr_alive pr) then (fs, pr, ProjMiss, ProjMiss)
  else
    let r := pr_rect pr in
    let centerX := rx r + rw r * 0.5 in
    let bottomY := ry r + rh r in
    if isSolidAtCanvasPoint env centerX bottomY then (fs, kill pr, ProjMiss, ProjMiss)
    else
      let '(fs, pr, o1) := projAgainst P1 fs pr in
      let '(fs, pr, o2) := projAgainst P2 fs pr in
      (fs, pr, o1, o2).

(** The whole loop, with the outcomes in iteration order. *)
Fixpoint projLoop (env : Stage) (fs : Fighter * Fighter) (prs : list Projectile)
    : Fighter * Fighter * list Projectile * list (ProjOutcome * ProjOutcome) :=
  match prs with
  | [] => (fs, [], [])
  | pr :: rest =>
      let '(fs, pr', o1, o2) := projStep env fs pr in
      let '(fs, rest', os) := projLoop env fs rest in
      (fs, pr' :: rest', (o1, o2) :: os)
  end.

Definition projectilePass (wd : World) : World * list (ProjOutcome * ProjOutcome) :=
  let '(fs, prs, os) := projLoop (stage wd) (p1 wd, p2 wd) (projectiles wd) in
  (mkWorld (fst fs) (snd fs) prs (npcController wd) (stage wd), os).

(** The flag writes the loop performs when a fighter is defeated (fall with
    no stock left, or [isDefeated()] at the end of the pass). *)
Definition clearActions (f : Fighter) : Fighter :=
  let f := set_state Defeat f in
  let f := set_attacking1 false f in
  let f := set_attacking2 false f in
  let f := set_parrying false f in
  let f := set_ranging1 false f in
  let f := set_ranging2 false f in
  let f := set_vx 0 f in
  set_vy 0 f.

(** "auto-defeat" at the end of the pass. *)
Definition autoDefeat (f : Fighter) : Fighter :=
  if isDefeated f && negb (isDefeatState f) then clearActions f else f.

(** P1 fell below [stage.fallThreshold]: a stock is lost; with no stock left
    the fighter is defeated, otherwise it respawns at [(sx, sy)] with its
    damage percent reset. *)
Definition offBottomP1 (sx sy : Q) (f : Fighter) : Fighter :=
  let f := set_stocks (Z.max 0 (stocks f - 1)) f in
  if (stocks f <=? 0)%Z then clearActions f
  else
    let f := set_x sx f in
    let f := set_y sy f in
    let f := set_vx 0 f in
    let f := set_vy 0 f in
    let f := set_damagePercent 0 f in
    let f := set_launchedFromHit false f in
    let f := set_hurt false f in
    let f := set_hurtTimer 0 f in
    set_stunTimer 0 f.

(** An NPC fell below the threshold: permanent defeat. *)
Definition offBottomNPC (f : Fighter) : Fighter :=
  let f := clearActions f in
  let f := set_maxHp 0%Z f in
  set_hp 0%Z f.

(** The direct writes of the stage-collision step (hover fix, emergency
    teleport, drop-through, loss of support, NPC repositioning): position,
    velocity, facing and the grounded flag receive new values. *)
Definition stageWrite (nx ny nvx nvy : Q) (nfacing : Z) (g : bool) (f : Fighter) : Fighter :=
  let f := set_x nx f in
  let f := set_y ny f in
  let f := set_vx nvx f in
  let f := set_vy nvy f in
  let f := set_facing nfacing f in
  set_onGround g f.

(** [SimpleAI] arms the parry on the fighter directly:
    [p2.parrying = true; p2.parryTimer = (p2.parryDurationDefault || 0.25) * 0.6;
     p2.parryConsumed = false]. *)
Definition aiForceParry (f : Fighter) : Fighter :=
  let f := set_parrying true f in
  let dur := if Qeq_bool (parryDurationDefault f) 0 then 0.25 else parryDurationDefault f in
  let f := set_parryTimer (dur * 0.6) f in
  set_parryConsumed false f.

(** ** Runs of the game loop *)

(** Every operation of the loop that writes a field of a combatant.  The
    loop performs them in a fixed order each tick; the properties below hold
    for any order and any arguments. *)
Inductive Op : Type :=
  | OpUpdate (s : Side) (dt now : Q) (inp : Input)
  | OpLandAt (s : Side) (yTop : Q)
  | OpStageWrite (s : Side) (nx ny nvx nvy : Q) (nfacing : Z) (g : bool)
  | OpOffBottomP1 (sx sy : Q)
  | OpOffBottomNPC
  | OpProjectilesChange (prs : list Projectile)  (* spawn, motion, expiry, cleanup *)
  | OpMelee
  | OpProjectilePass
  | OpAutoDefeat
  | OpAiParry.

Definition onFighter (s : Side) (g : Fighter -> Fighter) (wd : World) : World :=
  set_fighter s (g (fighter s wd)) wd.

Definition step (op : Op) (wd : World) : World :=
  match op with
  | OpUpdate s dt now inp => onFighter s (update dt now inp) wd
  | OpLandAt s yTop => onFighter s (landAt yTop) wd
  | OpStageWrite s nx ny nvx nvy nf g => onFighter s (stageWrite nx ny nvx nvy nf g) wd
  | OpOffBottomP1 sx sy => onFighter P1 (offBottomP1 sx sy) wd
  | OpOffBottomNPC => onFighter P2 offBottomNPC wd
  | OpProjectilesChange prs => set_projectiles prs wd
  | OpMelee => fst (fst (meleePass wd))
  | OpProjectilePass => fst (projectilePass wd)
  | OpAutoDefeat => onFighter P2 autoDefeat (onFighter P1 autoDefeat wd)
  | OpAiParry => onFighter P2 aiForceParry wd
  end.

Fixpoint run (ops : list Op) (wd : World) : World :=
  match ops with
  | [] => wd
  | op :: rest => run rest (step op wd)
  end.

(** ** The NPC controller [SimpleAI] *)

(** [KeysMap]: every key name is optional. *)
Record KeysMap : Type := mkKeysMap {
  k_left : option string;
  k_right : option string;
  k_up : option string;
  k_attack1 : option string;
  k_parry : option string
}.

(** Truthiness of a key name: [undefined] and the empty string are falsy. *)
Definition truthyKey (k : option string) : option string :=
  match k with
  | Some s => if bool_decide (s = ""%string) then None else Some s
  | None => None
  end.

Definition hasKey (k : option string) : bool :=
  match truthyKey k with Some _ => true | None => false end.

(** [if (key) mergedInput[key] = v] *)
Definition setKey (k : option string) (v : bool) (m : gmap string bool) : gmap string bool :=
  match truthyKey k with
  | Some s => <[s := v]> m
  | None => m
  end.

(** [!!mergedInput[name]] *)
Definition pressed (m : gmap string bool) (name : string) : bool :=
  match m !! name with Some b => b | None => false end.

(** A pluggable behaviour, as far as one call of [update] is concerned:
    from the context [{dt, p1, p2, projectiles}] to the intent it returns,
    or [None] when it throws. *)
Definition Behavior : Type :=
  Q -> Fighter -> Fighter -> list Projectile -> option (gmap string bool).

Record SimpleAI : Type := mkSimpleAI {
  lastJump : Q;
  attackCooldown : Q;
  ai_parryCooldown : Q;              (* private parryCooldown, local fallback *)
  keys : KeysMap;
  isSolidAt : option (Z -> Z -> bool);
  ai_canvasW : Q;
  edgeLookahead : Q;
  behavior : option Behavior;
  aggroRange : Q;
  attackRange : Q;
  spawnX : option Q;
  spawnClamp : Q;
  simplePatrol : bool;
  patrolDistance : Q;
  patrolTargetX : option Q;
  returningToSpawn : bool;
  isAggro : bool
}.

Definition set_attackCooldown (v : Q) (ai : SimpleAI) : SimpleAI :=
  mkSimpleAI (lastJump ai) v (ai_parryCooldown ai) (keys ai) (isSolidAt ai)
    (ai_canvasW ai) (edgeLookahead ai) (behavior ai) (aggroRange ai)
    (attackRange ai) (spawnX ai) (spawnClamp ai) (simplePatrol ai)
    (patrolDistance ai) (patrolTargetX ai) (returningToSpawn ai) (isAggro ai).

Definition set_ai_parryCooldown (v : Q) (ai : SimpleAI) : SimpleAI :=
  mkSimpleAI (lastJump ai) (attackCooldown ai) v (keys ai) (isSolidAt ai)
    (ai_canvasW ai) (edgeLookahead ai) (behavior ai) (aggroRange ai)
    (attackRange ai) (spawnX ai) (spawnClamp ai) (simplePatrol ai)
    (patrolDistance ai) (patrolTargetX ai) (returningToSpawn ai) (isAggro ai).

Definition set_lastJump (v : Q) (ai : SimpleAI) : SimpleAI :=
  mkSimpleAI v (attackCooldown ai) (ai_parryCooldown ai) (keys ai) (isSolidAt ai)
    (ai_canvasW ai) (edgeLookahead ai) (behavior ai) (aggroRange ai)
    (attackRange ai) (spawnX ai) (spawnClamp ai) (simplePatrol ai)
    (patrolDistance ai) (patrolTargetX ai) (returningToSpawn ai) (isAggro ai).

Definition set_patrol (target : option Q) (returning : bool) (ai : SimpleAI) : SimpleAI :=
  mkSimpleAI (lastJump ai) (attackCooldown ai) (ai_parryCooldown ai) (keys ai)
    (isSolidAt ai) (ai_canvasW ai) (edgeLookahead ai) (behavior ai)
    (aggroRange ai) (attackRange ai) (spawnX ai) (spawnClamp ai)
    (simplePatrol ai) (patrolDistance ai) target returning (isAggro ai).

Definition set_isAggro (v : bool) (ai : SimpleAI) : SimpleAI :=
  mkSimpleAI (lastJump ai) (attackCooldown ai) (ai_parryCooldown ai) (keys ai)
    (isSolidAt ai) (ai_canvasW ai) (edgeLookahead ai) (behavior ai)
    (aggroRange ai) (attackRange ai) (spawnX ai) (spawnClamp ai)
    (simplePatrol ai) (patrolDistance ai) (patrolTargetX ai)
    (returningToSpawn ai) v.

(** The constructor's defaults for the given options. *)
Definition newSimpleAI (ks : KeysMap) (solid : option (Z -> Z -> bool))
    (bh : option Behavior) (spawn : option Q) (simple : bool) : SimpleAI :=
  {| lastJump := 0; attackCooldown := 0; ai_parryCooldown := 0; keys := ks;
     isSolidAt := solid; ai_canvasW := 800; edgeLookahead := 48;
     behavior := bh; aggroRange := 300; attackRange := 90; spawnX := spawn;
     spawnClamp := 300; simplePatrol := simple; patrolDistance := 150;
     patrolTargetX := None; returningToSpawn := false; isAggro := false |}.

(** The five assignments that reset the controller's own keys. *)
Definition resetInputs (ai : SimpleAI) (m : gmap string bool) : gmap string bool :=
  let m := setKey (k_left (keys ai)) false m in
  let m := setKey (k_right (keys ai)) false m in
  let m := setKey (k_up (keys ai)) false m in
  let m := setKey (k_attack1 (keys ai)) false m in
  setKey (k_parry (keys ai)) false m.

(** [isPlayerInSight(p1, p2)]: the segment between the two fighters is
    sampled every 20 pixels, at the steps [1 .. steps - 1]. *)
Definition isPlayerInSight (ai : SimpleAI) (p1 p2 : Fighter) : bool :=
  match isSolidAt ai with
  | None => true
  | Some solid =>
      let npcX := x p2 in
      let npcY := y p2 in
      let playerX := x p1 in
      let playerY := y p1 in
      let distance := Qabs (playerX - npcX) in
      let steps := Z.max 1 (Math_floor (distance / 20)) in
      forallb
        (fun i : nat =>
           let t := inject_Z (Z.of_nat i) / inject_Z steps in
           let sampleX := npcX + (playerX - npcX) * t in
           let sampleY := npcY + (playerY - npcY) * t in
           negb (solid (Math_floor sampleX) (Math_floor sampleY)))
        (seq 1 (Z.to_nat steps - 1))
  end.

(** The early branch [if (this.simplePatrol && this.spawnX !== null)]:
    patrol between the spawn point and [spawnX + patrolDistance], chase and
    attack when the player is in range and in sight. *)
Definition simplePatrolUpdate (sX : Q) (merged : gmap string bool)
    (p2 p1 : Fighter) (ai : SimpleAI) : SimpleAI * gmap string bool :=
  let merged := resetInputs ai merged in
  let currentX := x p2 in
  let playerX := x p1 in
  let distanceToPlayer := Qabs (currentX - playerX) in
  let playerInRange := Qleb distanceToPlayer (aggroRange ai) in
  let playerInSight := isPlayerInSight ai p1 p2 in
  if playerInRange && playerInSight then
    let ai := set_isAggro true ai in
    let merged :=
      if Qltb currentX (playerX - 5) then setKey (k_right (keys ai)) true merged
      else if Qgtb currentX (playerX + 5) then setKey (k_left (keys ai)) true merged
      else merged in
    if Qleb distanceToPlayer (attackRange ai) && Qleb (attackCooldown ai) 0
       && hasKey (k_attack1 (keys ai))
    then (set_attackCooldown 1 ai, setKey (k_attack1 (keys ai)) true merged)
    else (ai, merged)
  else
    let ai := set_isAggro false ai in
    let ai :=
      match patrolTargetX ai with
      | None => set_patrol (Some (sX + patrolDistance ai)) false ai
      | Some _ => ai
      end in
    let target := match patrolTargetX ai with Some t => t | None => 0 end in
    let targetReached := Qltb (Qabs (currentX - target)) 10 in
    let ai :=
      if targetReached then
        if returningToSpawn ai
        then set_patrol (Some (sX + patrolDistance ai)) false ai
        else set_patrol (Some sX) true ai
      else ai in
    let target := match patrolTargetX ai with Some t => t | None => 0 end in
    let merged :=
      if Qltb currentX (target - 5) then setKey (k_right (keys ai)) true merged
      else if Qgtb currentX (target + 5) then setKey (k_left (keys ai)) true merged
      else merged in
    (ai, merged).

(** [disallowMoveBeyondSpawn(dir)] *)
Definition disallowMoveBeyondSpawn (ai : SimpleAI) (p2 : Fighter) (dirRight : bool) : bool :=
  match spawnX ai with
  | None => false
  | Some sx =>
      if dirRight then Qgeb (x p2) (sx + spawnClamp ai)
      else Qleb (x p2) (sx - spawnClamp ai)
  end.

(** The foot-height sample row, [Math.floor(p2.y + p2.h + 2)]. *)
Definition footY (p2 : Fighter) : Z := Math_floor (y p2 + h p2 + 2).

(** The lookahead column in direction [dir] (1 or -1) at [distance]. *)
Definition lookaheadX (p2 : Fighter) (dir distance : Q) : Z :=
  Math_floor (x p2 + w p2 * 0.5 + dir * distance).

(** One arm of the edge-safety filter on a behaviour's intent, for the
    movement key [key] in direction [dirRight]. *)
Definition filterMove (ai : SimpleAI) (p2 : Fighter) (key : string)
    (dirRight : bool) (safeIntent : gmap string bool) : gmap string bool :=
  if pressed safeIntent key then
    if disallowMoveBeyondSpawn ai p2 dirRight then <[key := false]> safeIntent
    else
      match isSolidAt ai with
      | Some solid =>
          if onGround p2 then
            let cx := lookaheadX p2 (if dirRight then 1 else -1) (edgeLookahead ai) in
            if negb (solid cx (footY p2)) then <[key := false]> safeIntent
            else safeIntent
          else safeIntent
      | None => safeIntent
      end
  else safeIntent.

Definition leftKeyOf (ai : SimpleAI) : string :=
  match truthyKey (k_left (keys ai)) with Some s => s | None => "left"%string end.

Definition rightKeyOf (ai : SimpleAI) : string :=
  match truthyKey (k_right (keys ai)) with Some s => s | None => "right"%string end.

(** The intent of the behaviour after both safety filters. *)
Definition safeIntentOf (ai : SimpleAI) (p2 : Fighter) (intent : gmap string bool)
    : gmap string bool :=
  let safeIntent := intent in
  let safeIntent := filterMove ai p2 (leftKeyOf ai) false safeIntent in
  filterMove ai p2 (rightKeyOf ai) true safeIntent.

(** The block [if (this.behavior && ...)]: the filtered intent is written
    over the merged input; a throwing behaviour leaves it unchanged. *)
Definition behaviorMerge (dt : Q) (merged : gmap string bool) (p2 p1 : Fighter)
    (prs : list Projectile) (ai : SimpleAI) : gmap string bool :=
  match behavior ai with
  | Some bh =>
      match bh dt p1 p2 prs with
      | Some intent => safeIntentOf ai p2 intent ∪ merged
      | None => merged
      end
  | None => merged
  end.

(** [p2.canvasW || p2.canvasWidth || fallback] *)
Definition canvasWOr (p2 : Fighter) (fallback : Q) : Q :=
  if Qeq_bool (canvasW p2) 0 then fallback else canvasW p2.

Definition threatNear (p2 : Fighter) (prs : list Projectile) : bool :=
  existsb
    (fun pr => pr_alive pr && negb (bool_decide (pr_owner pr = Some P2))
               && Qltb (Qabs (pr_x pr - x p2)) 140)
    prs.

(** The built-in heuristics that follow the behaviour block. *)
Definition fallbackUpdate (dt : Q) (merged : gmap string bool) (p2 p1 : Fighter)
    (prs : list Projectile) (ai : SimpleAI)
    : SimpleAI * gmap string bool * Fighter :=
  let ks := keys ai in
  let ai := set_lastJump (lastJump ai + dt) ai in
  let ai := if Qgtb (attackCooldown ai) 0 then set_attackCooldown (attackCooldown ai - dt) ai else ai in
  let ai := if Qgtb (ai_parryCooldown ai) 0 then set_ai_parryCooldown (ai_parryCooldown ai - dt) ai else ai in
  let dx := x p1 - x p2 in
  let dist := Qabs dx in
  let merged := resetInputs ai merged in
  let highDamage := Qgeb (damagePercent p2) 50 in
  let lowStocks := (stocks p2 <=? 1)%Z in
  (* edge avoidance *)
  let cw := canvasWOr p2 (if Qeq_bool (ai_canvasW ai) 0 then 800 else ai_canvasW ai) in
  let edgeMargin := 140 in
  let merged :=
    if Qltb (x p2) edgeMargin && hasKey (k_right ks) then setKey (k_right ks) true merged
    else if Qgtb (x p2 + w p2) (cw - edgeMargin) && hasKey (k_left ks)
         then setKey (k_left ks) true merged
    else merged in
  (* parry *)
  let threat := threatNear p2 prs in
  let oppAttacking := attacking1 p1 || attacking2 p1 in
  let fighterParryCooldown := parryCooldown p2 in
  let '(ai, merged, p2) :=
    if Qleb fighterParryCooldown 0 then
      if threat && hasKey (k_parry ks) then
        (set_ai_parryCooldown 0.1 ai, setKey (k_parry ks) true merged, aiForceParry p2)
      else if oppAttacking && Qltb dist 180 && hasKey (k_parry ks) then
        (set_ai_parryCooldown 0.1 ai, setKey (k_parry ks) true merged, aiForceParry p2)
      else (ai, merged, p2)
    else (ai, merged, p2) in
  (* heatmap-aware movement *)
  let merged :=
    match isSolidAt ai with
    | Some solid =>
        if hasKey (k_left ks) || hasKey (k_right ks) then
          let canStandAheadRight := solid (lookaheadX p2 1 48) (footY p2) in
          let canStandAheadLeft := solid (lookaheadX p2 (-1) 48) (footY p2) in
          if onGround p2 then
            if hasKey (k_right ks) && negb canStandAheadRight && hasKey (k_left ks)
            then setKey (k_left ks) true merged
            else if hasKey (k_left ks) && negb canStandAheadLeft && hasKey (k_right ks)
            then setKey (k_right ks) true merged
            else merged
          else merged
        else merged
    | None => merged
    end in
  (* attack or retreat *)
  if negb highDamage && negb lowStocks then
    if Qgtb dist 250 then
      if hasKey (k_right ks) && Qgtb dx 0 then (ai, setKey (k_right ks) true merged, p2)
      else if hasKey (k_left ks) && Qltb dx 0 then (ai, setKey (k_left ks) true merged, p2)
      else (ai, merged, p2)
    else
      if Qleb (attackCooldown ai) 0 && hasKey (k_attack1 ks)
      then (set_attackCooldown 0.8 ai, setKey (k_attack1 ks) true merged, p2)
      else (ai, merged, p2)
  else
    let cw := canvasWOr p2 800 in
    let centerX := (cw - w p2) * 0.5 in
    if Qltb (x p2) (centerX - 10) && hasKey (k_right ks) then (ai, setKey (k_right ks) true merged, p2)
    else if Qgtb (x p2) (centerX + 10) && hasKey (k_left ks) then (ai, setKey (k_left ks) true merged, p2)
    else (ai, merged, p2).

(** [SimpleAI.update(dt, mergedInput, p2, p1, projectiles)] *)
Definition aiUpdate (dt : Q) (merged : gmap string bool) (p2 p1 : Fighter)
    (prs : list Projectile) (ai : SimpleAI)
    : SimpleAI * gmap string bool * Fighter :=
  match (if simplePatrol ai then spawnX ai else None) with
  | Some sX =>
      let '(ai, merged) := simplePatrolUpdate sX merged p2 p1 ai in
      (ai, merged, p2)
  | None =>
      let merged := behaviorMerge dt merged p2 p1 prs ai in
      fallbackUpdate dt merged p2 p1 prs ai
  end.

(** The fighter's key map and the input [Fighter.update] reads through it. *)
Record FighterKeys : Type := mkFighterKeys {
  fk_left : string; fk_right : string; fk_up : string; fk_down : string;
  fk_attack1 : string; fk_attack2 : string; fk_parry : string;
  fk_ranged1 : string; fk_ranged2 : string; fk_dodge : string
}.

Definition readInput (ks : FighterKeys) (m : gmap string bool) : Input :=
  mkInput (pressed m (fk_left ks)) (pressed m (fk_right ks)) (pressed m (fk_up ks))
    (pressed m (fk_down ks)) (pressed m (fk_attack1 ks)) (pressed m (fk_attack2 ks))
    (pressed m (fk_parry ks)) (pressed m (fk_ranged1 ks)) (pressed m (fk_ranged2 ks))
    (pressed m (fk_dodge ks)).

(** ** Observations on runs *)

(** The fighter as the action block of [update] finds it. *)
Definition beforeActions (dt now : Q) (inp : Input) (f : Fighter) : Fighter :=
  let f := startFlying inp f in
  let f := if flying f then flyMove dt inp f else groundMove dt now inp f in
  let f := applyFriction dt f in
  legacyGround f.

(** Does this call of [update] start a parry, respectively a new attack
    instance (the branches that reset [parryConsumed], [attack1Launched],
    [attack2Launched])? *)
Definition updateStartsParry (dt now : Q) (inp : Input) (f : Fighter) : bool :=
  let g := beforeActions dt now inp f in
  negb (flying g) && parryStarts inp g.

Definition updateStartsAttack (lf : LaunchFlag) (dt now : Q) (inp : Input)
    (f : Fighter) : bool :=
  let g := beforeActions dt now inp f in
  negb (flying g) &&
  match lf with
  | Attack1Launched => attack1Starts inp (parryStep dt inp g)
  | Attack2Launched => attack2Starts inp (attack1Step dt inp (parryStep dt inp g))
  end.

(** The flag a melee block consumed, if its body ran. *)
Definition consumedFlag (o : MeleeOutcome) : option LaunchFlag :=
  match o with
  | NoResolution => None
  | ParryNegated lf | ParryReflected lf | MeleeHit lf | Unresolved lf => Some lf
  end.

Definition isParried (o : MeleeOutcome) : bool :=
  match o with
  | ParryNegated _ | ParryReflected _ => true
  | _ => false
  end.

(** The outcome of the block of [meleePass] in which [s] attacks. *)
Definition meleeOutcomeOf (s : Side) (wd : World) : MeleeOutcome :=
  match s with
  | P1 => snd (fst (meleePass wd))
  | P2 => snd (meleePass wd)
  end.

Definition projOutcomeOf (s : Side) (o : ProjOutcome * ProjOutcome) : ProjOutcome :=
  match s with P1 => fst o | P2 => snd o end.

Definition isProjParried (o : ProjOutcome) : bool :=
  match o with ProjParried => true | _ => false end.

(** Number of steps of a run at which an observation holds, and the sum of
    a numeric observation. *)
Fixpoint countSteps (obs : Op -> World -> nat) (ops : list Op) (wd : World) : nat :=
  match ops with
  | [] => 0%nat
  | op :: rest => (obs op wd + countSteps obs rest (step op wd))%nat
  end.

Definition b2n (b : bool) : nat := if b then 1%nat else 0%nat.

(** A melee resolution of attacker [s] that consumed flag [lf]. *)
Definition resolvesAt (s : Side) (lf : LaunchFlag) (op : Op) (wd : World) : nat :=
  match op with
  | OpMelee => b2n (bool_decide (consumedFlag (meleeOutcomeOf s wd) = Some lf))
  | _ => 0%nat
  end.

(** The start of an attack instance of [s] for flag [lf]. *)
Definition instanceStartsAt (s : Side) (lf : LaunchFlag) (op : Op) (wd : World) : nat :=
  match op with
  | OpUpdate s' dt now inp =>
      b2n (bool_decide (s' = s) && updateStartsAttack lf dt now inp (fighter s wd))
  | _ => 0%nat
  end.

Definition resolutions (s : Side) (lf : LaunchFlag) : list Op -> World -> nat :=
  countSteps (resolvesAt s lf).

Definition attackInstances (s : Side) (lf : LaunchFlag) : list Op -> World -> nat :=
  countSteps (instanceStartsAt s lf).

(** Hits that the parry of [s] negated or reflected at a step. *)
Definition neutralisedAt (s : Side) (op : Op) (wd : World) : nat :=
  match op with
  | OpMelee => b2n (isParried (meleeOutcomeOf (other s) wd))
  | OpProjectilePass =>
      length (List.filter (fun o => isProjParried (projOutcomeOf s o)) (snd (projectilePass wd)))
  | _ => 0%nat
  end.




(** A parry that can still neutralise a hit. *)
Definition parryArmed (f : Fighter) : bool := parrying f && negb (parryConsumed f).

(** A hit as [receiveHit] takes it. *)
Record Hit : Type := mkHit {
  percentIncrease : Q;
  baseKB : Q;
  strength : Q;
  angleRad : option Angle
}.

Definition applyHit (f : Fighter) (ht : Hit) : Fighter :=
  receiveHit (percentIncrease ht) (baseKB ht) (strength ht) (angleRad ht) f.

Definition receiveHits (hits : list Hit) (f : Fighter) : Fighter :=
  fold_left applyHit hits f.

Definition isRespawn (op : Op) : bool :=
  match op with OpOffBottomP1 _ _ => true | _ => false end.

(** The knockback formula in the words of the design document:
    [KB = baseKnockback + damagePercent * scale
          + damagePercent^2 / (k + damagePercent)], [scale = 6 * strengthMultiplier]. *)
Definition softeningK : Q := 30.

Definition documentedKB (baseKnockback strengthMultiplier dmgPercent : Q) : Q :=
  let scale := 6 * strengthMultiplier in
  baseKnockback + dmgPercent * scale + dmgPercent ^ 2 / (softeningK + dmgPercent).

(** The states a fighter reaches from the constructor through its own
    methods and the writes of the game loop (set-up of the hit counts, stage
    collision, falls, the combat pass).  [SimpleAI]'s direct arming of the
    parry is not among them. *)
Inductive reachable : Fighter -> Prop :=
  | reach_new x0 y0 cw ch : reachable (newFighter x0 y0 cw ch)
  | reach_update dt now inp f : reachable f -> reachable (update dt now inp f)
  | reach_receiveHit pct kb str ang f :
      reachable f -> reachable (receiveHit pct kb str ang f)
  | reach_takeDamage n f : reachable f -> reachable (takeDamage n f)
  | reach_landAt yTop f : reachable f -> reachable (landAt yTop f)
  | reach_stageWrite nx ny nvx nvy nf g f :
      reachable f -> reachable (stageWrite nx ny nvx nvy nf g f)
  | reach_offBottomP1 sx sy f : reachable f -> reachable (offBottomP1 sx sy f)
  | reach_offBottomNPC f : reachable f -> reachable (offBottomNPC f)
  | reach_autoDefeat f : reachable f -> reachable (autoDefeat f)
  | reach_percent f :
      reachable f -> reachable (set_damagePercent (damagePercent f + 8) f)
  | reach_setup n m f : reachable f -> reachable (set_maxHp m (set_hp n f))
  | reach_launch lf f : reachable f -> reachable (setLaunch lf true f)
  | reach_parried f :
      reachable f ->
      reachable (set_parryFreezeTimer 0.15 (set_parryConsumed true f))
  | reach_stunned f : reachable f -> reachable (set_stunTimer 1.2 f).

(** At most one of the five exclusive action conditions holds. *)
Definition attacking (f : Fighter) : bool := attacking1 f || attacking2 f.
Definition ranging (f : Fighter) : bool := ranging1 f || ranging2 f.

Definition activeConditions (f : Fighter) : nat :=
  (b2n (attacking f) + b2n (parrying f) + b2n (ranging f) + b2n (hurt f)
   + b2n (flying f))%nat.

(** ** Measures and predicates of the statements *)

(** The fields that decide combat resolution: percent, hit points, the
    action flags and the single-use flags. *)
Definition keepsCombat (f f' : Fighter) : Prop :=
  damagePercent f' = damagePercent f /\ hp f' = hp f
  /\ attack1Launched f' = attack1Launched f
  /\ attack2Launched f' = attack2Launched f
  /\ parrying f' = parrying f /\ parryConsumed f' = parryConsumed f
  /\ attacking1 f' = attacking1 f /\ attacking2 f' = attacking2 f
  /\ ranging1 f' = ranging1 f /\ ranging2 f' = ranging2 f.

(** What a step of the pass may do to a combatant, seen from the two
    single-use mechanisms: the launch flags are kept, the percent does not
    fall, and [n] hits were neutralised by a parry that was armed before and
    is not armed after. *)
Definition passEffect (n : nat) (f f' : Fighter) : Prop :=
  (forall lf, getLaunch lf f' = getLaunch lf f)
  /\ damagePercent f <= damagePercent f'
  /\ (n + b2n (parryArmed f') <= b2n (parryArmed f))%nat.

Definition stepFighters (r : Fighter * Fighter * Projectile * ProjOutcome * ProjOutcome)
    : Fighter * Fighter := fst (fst (fst r)).

Definition stepOutcomes (r : Fighter * Fighter * Projectile * ProjOutcome * ProjOutcome)
    : ProjOutcome * ProjOutcome := (snd (fst r), snd r).

Definition parriedCount (s : Side) (os : list (ProjOutcome * ProjOutcome)) : nat :=
  length (List.filter (fun o => isProjParried (projOutcomeOf s o)) os).

(** The two blocks of the melee pass. *)
Definition block1 (wd : World) : Fighter * Fighter * MeleeOutcome :=
  meleeBlock (npcController wd) (hitbox (p1 wd)) (p1 wd) (p2 wd).

Definition block2 (wd : World) : Fighter * Fighter * MeleeOutcome :=
  meleeBlock (npcController wd) (hitbox (p2 wd))
    (snd (fst (block1 wd))) (fst (fst (block1 wd))).

(** The attacking flag an attack instance of a given kind holds. *)
Definition attackingFor (lf : LaunchFlag) (f : Fighter) : bool :=
  match lf with
  | Attack1Launched => attacking1 f
  | Attack2Launched => attacking2 f
  end.

(** An attack instance that is running and was not resolved yet. *)
Definition pendingAttack (lf : LaunchFlag) (f : Fighter) : bool :=
  attackingFor lf f && negb (getLaunch lf f).

(** A projectile test on a fighter it overlaps and does not belong to. *)
Definition projReaches (s : Side) (fs : Fighter * Fighter) (pr : Projectile) : bool :=
  negb (bool_decide (pr_owner pr = Some s)) && aabb (pr_rect pr) (rect (getSide s fs)).

(** The heatmap is ready: context, canvas of positive width and stage image
    of positive natural width are all there. *)
Definition heatmapReady (env : Stage) : Prop :=
  exists ctx cv img,
    heatmapCtx env = Some ctx /\ heatmapCanvas env = Some cv
    /\ stageImg env = Some img /\ (0 < width cv)%Z /\ (0 < naturalWidth img)%Z.

(** The parry excludes attacking and ranging. *)
Definition parryExclusive (f : Fighter) : Prop :=
  parrying f = true ->
  attacking1 f = false /\ attacking2 f = false
  /\ ranging1 f = false /\ ranging2 f = false.

(** ** Scenarios *)

(** A fighter hit to 30 percent in a versus match, landed again, and then
    brought to zero hit points: defeated, standing, at 30 percent. *)
Definition downedFighter : Fighter :=
  takeDamage 3 (landAt 300 (receiveHit 30 140 0.6 (Some Math_PI) (newFighter 100 300 800 600))).

Definition pressAttack1 : Input :=
  mkInput false false false false true false false false false false.

Definition pressParry : Input :=
  mkInput false false false false false false true false false false.

Definition pressAttack1Ranged1 : Input :=
  mkInput false false false false true false false true false false.

(** A stage without heatmap: nothing is solid. *)
Definition noHeatmap : Stage := mkStage None None None 800 600.

(** Actor A at x = 100 and actor B at x = 250, whose hurtbox A's attack
    hitbox overlaps, in a versus match and in a single-player match. *)
Definition actorA : Fighter := newFighter 100 300 800 600.
Definition actorB : Fighter := newFighter 250 300 800 600.

Definition versusWorld : World := mkWorld actorA actorB [] false noHeatmap.
Definition singleplayerWorld : World := mkWorld actorA actorB [] true noHeatmap.

(** One tick of the scenario: both fighters are updated ([dt] = 16 ms), then
    the melee blocks run.  A presses attack1 on the first tick only. *)
Definition scenarioTick (inpA : Input) : list Op :=
  [OpUpdate P1 0.016 0 inpA; OpUpdate P2 0.016 0 noInput; OpMelee].

Definition fiveTicks : list Op :=
  scenarioTick pressAttack1 ++ scenarioTick noInput ++ scenarioTick noInput
  ++ scenarioTick noInput ++ scenarioTick noInput.

(** A keeps attack1 held for 23 ticks (0.368 s), longer than the 0.35 s
    attack timer. *)
Fixpoint repeatOps (n : nat) (ops : list Op) : list Op :=
  match n with
  | O => []
  | S k => ops ++ repeatOps k ops
  end.

Definition heldAttack : list Op := repeatOps 23 (scenarioTick pressAttack1).

(** B starts a parry on the tick A's attack first overlaps, and a
    projectile of A reaches B in the same pass: two hits in one parry
    window. *)
Definition shot : Projectile := mkProjectile 250 300 600 true (Some P1) false.

Definition parryTick : list Op :=
  [OpUpdate P2 0.016 0 pressParry; OpUpdate P1 0.016 0 pressAttack1; OpMelee].

Definition twoHits : list Op :=
  [OpUpdate P2 0.016 0 pressParry; OpUpdate P1 0.016 0 pressAttack1;
   OpProjectilesChange [shot]; OpMelee; OpProjectilePass].

(** A heatmap of 100 by 50 pixels whose rows from 30 on are opaque, shown on
    a canvas of 800 by 400. *)
Definition demoHeatmap : Stage :=
  mkStage
    (Some (mkHeatmapCtx (fun _ cy => Some [0; 0; 0; if (30 <=? cy)%Z then 255 else 0]%Z)))
    (Some (mkCanvas 100 50)) (Some (mkImage 100 50)) 800 400.

(** The same stage with a context whose [getImageData] throws. *)
Definition brokenHeatmap : Stage :=
  mkStage (Some (mkHeatmapCtx (fun _ _ => None)))
    (Some (mkCanvas 100 50)) (Some (mkImage 100 50)) 800 400.

(** An NPC standing at x = 300 on ground that ends to its left (solid only
    from column 400 on), the player 300 pixels to its left; the controller is
    the one the game builds for section 1 (no simple patrol, no behaviour). *)
Definition npcKeys : KeysMap :=
  mkKeysMap (Some "left"%string) (Some "right"%string) (Some "up"%string)
    (Some "attack1"%string) None.

Definition ledgeSolid : Z -> Z -> bool := fun cx _ => (400 <=? cx)%Z.

Definition ledgeAi : SimpleAI := newSimpleAI npcKeys (Some ledgeSolid) None None false.

(** The same controller with a behaviour that always asks to go left. *)
Definition goLeft : Behavior := fun _ _ _ _ => Some (<["left"%string := true]> ∅).

Definition ledgeAiBehavior : SimpleAI :=
  newSimpleAI npcKeys (Some ledgeSolid) (Some goLeft) None false.

Definition ledgeNpc : Fighter := set_onGround true (newFighter 300 200 800 600).
Definition ledgePlayer : Fighter := newFighter 0 200 800 600.

Definition npcFighterKeys : FighterKeys :=
  mkFighterKeys "left" "right" "up" "down" "attack1" "attack2" "parry"
    "ranged1" "ranged2" "dodge".

(** After one [update] with attack1 and ranged1 pressed together, a fresh
    fighter is attacking and ranging at once. *)
Definition attackAndShoot : Fighter := update 0.016 0 pressAttack1Ranged1 actorA.

(** * Properties *)

(** ** Numbers *)

Lemma Qltb_lt a b : Qltb a b = true <-> a < b.
Proof.
  unfold Qltb. rewrite negb_true_iff. split.
  - intros Hb. apply Qnot_le_lt. intros Hle.
    apply Qle_bool_iff in Hle. congruence.
  - intros Hlt. destruct (Qle_bool b a) eqn:E; [|reflexivity].
    apply Qle_bool_iff in E. exfalso. apply (Qlt_not_le _ _ Hlt E).
Qed.

Lemma Qltb_ge a b : Qltb a b = false <-> b <= a.
Proof.
  unfold Qltb. rewrite negb_false_iff. apply Qle_bool_iff.
Qed.

Lemma Qleb_le a b : Qleb a b = true <-> a <= b.
Proof. apply Qle_bool_iff. Qed.

Lemma Qleb_gt a b : Qleb a b = false <-> b < a.
Proof.
  unfold Qleb. split.
  - intros Hb. apply Qnot_le_lt. intros Hle.
    apply Qle_bool_iff in Hle. congruence.
  - intros Hlt. destruct (Qle_bool a b) eqn:E; [|reflexivity].
    apply Qle_bool_iff in E. exfalso. apply (Qlt_not_le _ _ Hlt E).
Qed.

Lemma Math_max_l a b : a <= Math_max a b.
Proof.
  unfold Math_max. destruct (Qleb a b) eqn:E.
  - now apply Qleb_le. 
  - apply Qle_refl.
Qed.

Lemma Math_max_r a b : b <= Math_max a b.
Proof.
  unfold Math_max. destruct (Qleb a b) eqn:E.
  - apply Qle_refl.
  - apply Qleb_gt in E. now apply Qlt_le_weak.
Qed.

(** ** Hits on a single fighter *)

Lemma isDefeatState_true f : isDefeatState f = true <-> state f = Defeat.
Proof. unfold isDefeatState. apply bool_decide_eq_true. Qed.

Lemma isDefeatState_false f : isDefeatState f = false <-> state f <> Defeat.
Proof. unfold isDefeatState. apply bool_decide_eq_false. Qed.

Lemma receiveHit_defeated pct kb str ang f :
  state f = Defeat -> receiveHit pct kb str ang f = f.
Proof.
  intros Hd. unfold receiveHit.
  apply isDefeatState_true in Hd. now rewrite Hd.
Qed.

Lemma takeDamage_defeated n f :
  (hp f <= 0)%Z \/ state f = Defeat -> takeDamage n f = f.
Proof.
  intros [Hhp | Hd]; unfold takeDamage.
  - apply Z.leb_le in Hhp. now rewrite Hhp.
  - apply isDefeatState_true in Hd. rewrite Hd.
    now rewrite orb_true_r.
Qed.

(** The damage percent after a hit on a fighter that is not defeated. *)
Lemma receiveHit_percent pct kb str ang f :
  state f <> Defeat ->
  damagePercent (receiveHit pct kb str ang f) = damagePercent f + pct.
Proof.
  intros Hnd. apply isDefeatState_false in Hnd.
  unfold receiveHit. rewrite Hnd. cbn.
  destruct (Qltb (damagePercent f + pct) 30); reflexivity.
Qed.

(** The low-percent regime, field by field. *)
Lemma receiveHit_low pct kb str ang f :
  state f <> Defeat ->
  damagePercent f + pct < 30 ->
  let f' := receiveHit pct kb str ang f in
  let a := match ang with
           | Some a => a
           | None => if (0 <? facing f)%Z then Math_PI else angle0
           end in
  let KB := knockbackKB kb str (damagePercent f + pct) in
  vx f' = vx f + cosA a * KB * (0.12 * str) * globalKnockbackMultiplier
  /\ vy f' = vy f + - sinA a * KB * (0.12 * str) * globalKnockbackMultiplier
  /\ stunTimer f' = Math_max (stunTimer f) (0.25 * str)
  /\ hurt f' = true /\ hurtTimer f' = 0.3
  /\ onGround f' = onGround f /\ launchedFromHit f' = launchedFromHit f.
Proof.
  intros Hnd Hlow. apply isDefeatState_false in Hnd.
  apply Qltb_lt in Hlow.
  cbv zeta. unfold receiveHit. rewrite Hnd. cbn.
  rewrite Hlow. cbn. repeat split; reflexivity.
Qed.

(** The launch regime, field by field. *)
Lemma receiveHit_high pct kb str ang f :
  state f <> Defeat ->
  30 <= damagePercent f + pct ->
  let f' := receiveHit pct kb str ang f in
  let dp := damagePercent f + pct in
  let scaleMultiplier := 1 + Math_min (Math_max ((dp - 30) / 70) 0) 1 * 2 in
  let dir := match ang with
             | Some a => if Qltb (cosA a) 0 then 1 else -1
             | None => -1
             end in
  onGround f' = false /\ launchedFromHit f' = true
  /\ vx f' = 150 * scaleMultiplier * dir * globalKnockbackMultiplier
  /\ vy f' = -350 * scaleMultiplier * globalKnockbackMultiplier
  /\ stunTimer f' = Math_max (stunTimer f) (0.5 * str)
  /\ hurt f' = true /\ hurtTimer f' = 0.45.
Proof.
  intros Hnd Hhigh. apply isDefeatState_false in Hnd.
  apply Qltb_ge in Hhigh.
  cbv zeta. unfold receiveHit. rewrite Hnd. cbn.
  rewrite Hhigh. cbn. destruct ang as [a|]; cbn;
    [destruct (Qltb (cosA a) 0)|]; repeat split; reflexivity.
Qed.

(** Fields no hit ever writes. *)
Lemma receiveHit_frame pct kb str ang f :
  let f' := receiveHit pct kb str ang f in
  x f' = x f /\ y f' = y f /\ facing f' = facing f /\ hp f' = hp f
  /\ maxHp f' = maxHp f /\ stocks f' = stocks f /\ state f' = state f
  /\ attacking1 f' = attacking1 f /\ attacking2 f' = attacking2 f
  /\ parrying f' = parrying f /\ ranging1 f' = ranging1 f
  /\ ranging2 f' = ranging2 f /\ flying f' = flying f
  /\ attack1Launched f' = attack1Launched f
  /\ attack2Launched f' = attack2Launched f
  /\ parryConsumed f' = parryConsumed f
  /\ parryFreezeTimer f' = parryFreezeTimer f.
Proof.
  cbv zeta. unfold receiveHit.
  destruct (isDefeatState f); [repeat split; reflexivity|].
  cbn. destruct (Qltb (damagePercent f + pct) 30); cbn; repeat split; reflexivity.
Qed.

Lemma Qabs_scale_le c m : Qabs c <= 1 -> Qabs (c * m) <= Qabs m.
Proof.
  intros Hc. rewrite Qabs_Qmult.
  pose proof (Qmult_le_compat_r (Qabs c) 1 (Qabs m) Hc (Qabs_nonneg m)) as H.
  rewrite Qmult_1_l in H. exact H.
Qed.

(** C1, as stated, fails on a defeated fighter: [receiveHit] returns at its
    first line, so a call whose resulting damage percent is at least 30
    leaves the fighter grounded and not launched. *)
Lemma C1_counterexample :
  state downedFighter = Defeat
  /\ 30 <= damagePercent (receiveHit 30 140 0.6 (Some Math_PI) downedFighter)
  /\ onGround (receiveHit 30 140 0.6 (Some Math_PI) downedFighter) = true
  /\ launchedFromHit (receiveHit 30 140 0.6 (Some Math_PI) downedFighter) = false.
Proof.
  repeat split; vm_compute; congruence.
Qed.

(** C1 (amended): for every call of [receiveHit] on a fighter that is not in
    the defeat state: if the resulting damage percent is at least 30 the hit
    clears [onGround] and sets [launchedFromHit]; if it is below 30 the call
    leaves both flags as they were and applies only a velocity impulse
    bounded by [|KB| * 0.12 * |strength| * 0.2] in each axis, the stun
    [max(stunTimer, 0.25 * strength)] and the hurt state for 0.3 s. *)
Theorem C1_receiveHit_regimes :
  forall (pct kb str : Q) (ang : option Angle) (f : Fighter),
    state f <> Defeat ->
    let f' := receiveHit pct kb str ang f in
    let a := match ang with
             | Some a => a
             | None => if (0 <? facing f)%Z then Math_PI else angle0
             end in
    let bound := Qabs (knockbackKB kb str (damagePercent f') * (0.12 * str)
                       * globalKnockbackMultiplier) in
    (30 <= damagePercent f' -> onGround f' = false /\ launchedFromHit f' = true)
    /\ (damagePercent f' < 30 ->
        onGround f' = onGround f /\ launchedFromHit f' = launchedFromHit f
        /\ (Qabs (cosA a) <= 1 -> Qabs (vx f' - vx f) <= bound)
        /\ (Qabs (sinA a) <= 1 -> Qabs (vy f' - vy f) <= bound)
        /\ stunTimer f' = Math_max (stunTimer f) (0.25 * str)
        /\ hurt f' = true /\ hurtTimer f' = 0.3
        /\ x f' = x f /\ y f' = y f /\ hp f' = hp f /\ state f' = state f).
Proof.
  intros pct kb str ang f Hnd f' a bound.
  assert (Hdp : damagePercent f' = damagePercent f + pct)
    by (apply receiveHit_percent; exact Hnd).
  split.
  - intros Hhigh. rewrite Hdp in Hhigh.
    destruct (receiveHit_high pct kb str ang f Hnd Hhigh) as (Hg & Hl & _).
    split; assumption.
  - intros Hlow. rewrite Hdp in Hlow.
    destruct (receiveHit_low pct kb str ang f Hnd Hlow)
      as (Hvx & Hvy & Hstun & Hh & Hht & Hg & Hl).
    destruct (receiveHit_frame pct kb str ang f)
      as (Hx & Hy & _ & Hhp & _ & _ & Hst & _).
    fold f' in Hvx, Hvy, Hstun, Hh, Hht, Hg, Hl, Hx, Hy, Hhp, Hst.
    repeat split; try assumption.
    + intros Hc. unfold bound. rewrite Hvx, Hdp.
      fold a.
      assert (E : vx f + cosA a * knockbackKB kb str (damagePercent f + pct)
                  * (0.12 * str) * globalKnockbackMultiplier - vx f
                  == cosA a * (knockbackKB kb str (damagePercent f + pct)
                               * (0.12 * str) * globalKnockbackMultiplier)) by ring.
      rewrite E. apply Qabs_scale_le. exact Hc.
    + intros Hs. unfold bound. rewrite Hvy, Hdp.
      fold a.
      assert (E : vy f + - sinA a * knockbackKB kb str (damagePercent f + pct)
                  * (0.12 * str) * globalKnockbackMultiplier - vy f
                  == (- sinA a) * (knockbackKB kb str (damagePercent f + pct)
                                   * (0.12 * str) * globalKnockbackMultiplier)) by ring.
      rewrite E. apply Qabs_scale_le. rewrite Qabs_opp. exact Hs.
Qed.

(** The amended C1 at a fresh fighter hit by a projectile that carries
    knockback ([receiveHit(8, 90, 0.9, 0)]). *)
Lemma C1_receiveHit_regimes_witness :
  state (newFighter 100 300 800 600) <> Defeat
  /\ damagePercent (receiveHit 8 90 0.9 (Some angle0) (newFighter 100 300 800 600)) < 30
  /\ launchedFromHit (receiveHit 8 90 0.9 (Some angle0) (newFighter 100 300 800 600)) = false.
Proof.
  assert (Hnd : state (newFighter 100 300 800 600) <> Defeat) by (cbn; congruence).
  assert (Hlt : damagePercent (receiveHit 8 90 0.9 (Some angle0) (newFighter 100 300 800 600)) < 30)
    by (vm_compute; reflexivity).
  split; [exact Hnd|]. split; [exact Hlt|].
  destruct (C1_receiveHit_regimes 8 90 0.9 (Some angle0) (newFighter 100 300 800 600) Hnd)
    as [_ Hlow].
  destruct (Hlow Hlt) as (_ & Hl & _).
  rewrite Hl. reflexivity.
Defined.

(** C5: the knockback magnitude that [receiveHit] computes is
    [baseKnockback + damagePercent * scale + damagePercent^2 / (k + damagePercent)]
    with [scale = 6 * strengthMultiplier], [k = 30] and [damagePercent]
    taken after the hit's increase was added; below 30 percent this is the
    magnitude the velocity impulse is scaled by. *)
Theorem C5_knockback_formula :
  forall (pct kb str : Q) (ang : option Angle) (f : Fighter),
    state f <> Defeat ->
    let f' := receiveHit pct kb str ang f in
    let dp := damagePercent f' in
    let a := match ang with
             | Some a => a
             | None => if (0 <? facing f)%Z then Math_PI else angle0
             end in
    dp = damagePercent f + pct
    /\ knockbackKB kb str dp == documentedKB kb str dp
    /\ (dp < 30 ->
        vx f' == vx f + cosA a * documentedKB kb str dp * (0.12 * str) * 0.2
        /\ vy f' == vy f + - sinA a * documentedKB kb str dp * (0.12 * str) * 0.2).
Proof.
  intros pct kb str ang f Hnd f' dp a.
  assert (Hdp : dp = damagePercent f + pct)
    by (apply receiveHit_percent; exact Hnd).
  assert (HKB : forall d, knockbackKB kb str d == documentedKB kb str d).
  { intros d. unfold knockbackKB, documentedKB, softeningK. cbv zeta.
    assert (Hsq : d ^ 2 == d * d) by ring.
    rewrite Hsq. reflexivity. }
  split; [exact Hdp|]. split; [apply HKB|].
  intros Hlow. rewrite Hdp in Hlow.
  destruct (receiveHit_low pct kb str ang f Hnd Hlow) as (Hvx & Hvy & _).
  fold f' in Hvx, Hvy. fold a in Hvx, Hvy.
  rewrite Hvx, Hvy, <- Hdp. unfold globalKnockbackMultiplier.
  rewrite !(HKB dp). split; reflexivity.
Qed.

(** C5 at the reflected melee hit [receiveHit(20, 120, 1.0, Math.PI)] on a
    fresh fighter: the magnitude is [120 + 20 * 6 + 400 / 50 = 248]. *)
Lemma C5_knockback_formula_witness :
  state (newFighter 100 300 800 600) <> Defeat
  /\ knockbackKB 120 1
       (damagePercent (receiveHit 20 120 1 (Some Math_PI) (newFighter 100 300 800 600)))
     == 248.
Proof.
  assert (Hnd : state (newFighter 100 300 800 600) <> Defeat) by (cbn; congruence).
  split; [exact Hnd|].
  destruct (C5_knockback_formula 20 120 1 (Some Math_PI) (newFighter 100 300 800 600) Hnd)
    as (_ & HKB & _).
  rewrite HKB. vm_compute. reflexivity.
Defined.

(** C10: on a fighter that is already defeated both methods return at their
    first line and change nothing: [takeDamage] when [hp <= 0] or the state
    is [defeat], [receiveHit] when the state is [defeat]. *)
Theorem C10_defeated_noop :
  forall (f : Fighter),
    (forall n, (hp f <= 0)%Z \/ state f = Defeat -> takeDamage n f = f)
    /\ (forall pct kb str ang, state f = Defeat -> receiveHit pct kb str ang f = f).
Proof.
  intros f. split.
  - intros n Hd. apply takeDamage_defeated. exact Hd.
  - intros pct kb str ang Hd. apply receiveHit_defeated. exact Hd.
Qed.

(** C10 at the downed fighter. *)
Lemma C10_defeated_noop_witness :
  takeDamage 1 downedFighter = downedFighter
  /\ receiveHit 30 140 0.6 (Some Math_PI) downedFighter = downedFighter.
Proof.
  destruct (C10_defeated_noop downedFighter) as [Ht Hr].
  split.
  - apply Ht. right. vm_compute. reflexivity.
  - apply Hr. vm_compute. reflexivity.
Defined.

(** ** Frames of the movement steps *)

(** Case analysis on every test of a straight-line method body. *)
Ltac split_tests :=
  repeat (cbn;
          match goal with
          | |- context [if ?b then _ else _] => destruct b eqn:?
          | |- context [match ?o with Some _ => _ | None => _ end] => destruct o eqn:?
          end).

Ltac frame_by_cases := split_tests; cbn; repeat split; try reflexivity; try congruence.

Lemma keepsCombat_refl f : keepsCombat f f.
Proof. unfold keepsCombat. repeat split; reflexivity. Qed.

Lemma keepsCombat_trans f g k :
  keepsCombat f g -> keepsCombat g k -> keepsCombat f k.
Proof.
  unfold keepsCombat.
  intros (A1 & A2 & A3 & A4 & A5 & A6 & A7 & A8 & A9 & A10)
         (B1 & B2 & B3 & B4 & B5 & B6 & B7 & B8 & B9 & B10).
  repeat split; congruence.
Qed.

Lemma setState_keepsCombat s f : keepsCombat f (setState s f).
Proof. unfold keepsCombat, setState. frame_by_cases. Qed.

Lemma setDerivedState_keepsCombat f : keepsCombat f (setDerivedState f).
Proof. unfold keepsCombat, setDerivedState, setState. frame_by_cases. Qed.

Lemma landFromLaunch_keepsCombat f : keepsCombat f (landFromLaunch f).
Proof. unfold keepsCombat, landFromLaunch, setState. frame_by_cases. Qed.

Lemma landAt_keepsCombat yTop f : keepsCombat f (landAt yTop f).
Proof. unfold keepsCombat, landAt, landFromLaunch, setState. frame_by_cases. Qed.

Lemma stageWrite_keepsCombat nx ny nvx nvy nf g f :
  keepsCombat f (stageWrite nx ny nvx nvy nf g f).
Proof. unfold keepsCombat, stageWrite. frame_by_cases. Qed.

Lemma applyFriction_keepsCombat dt f : keepsCombat f (applyFriction dt f).
Proof. unfold keepsCombat, applyFriction. frame_by_cases. Qed.

Lemma legacyGround_keepsCombat f : keepsCombat f (legacyGround f).
Proof. unfold keepsCombat, legacyGround, landFromLaunch, setState. frame_by_cases. Qed.

Lemma groundMove_keepsCombat dt now inp f : keepsCombat f (groundMove dt now inp f).
Proof. unfold keepsCombat, groundMove. frame_by_cases. Qed.

Lemma hurtStep_keepsCombat dt f : keepsCombat f (hurtStep dt f).
Proof.
  unfold keepsCombat, hurtStep, setDerivedState, setState. frame_by_cases.
Qed.

Lemma stateFallback_keepsCombat f : keepsCombat f (stateFallback f).
Proof.
  unfold stateFallback.
  destruct (_ && _); [apply setDerivedState_keepsCombat | apply keepsCombat_refl].
Qed.

Lemma startFlying_keepsCombat inp f : keepsCombat f (startFlying inp f).
Proof. unfold keepsCombat, startFlying. frame_by_cases. Qed.

Lemma flyMove_keepsCombat dt inp f : keepsCombat f (flyMove dt inp f).
Proof.
  unfold keepsCombat, flyMove, setDerivedState, setState. frame_by_cases.
Qed.

Lemma beforeActions_keepsCombat dt now inp f :
  keepsCombat f (beforeActions dt now inp f).
Proof.
  unfold beforeActions. cbv zeta.
  eapply keepsCombat_trans; [apply startFlying_keepsCombat|].
  eapply keepsCombat_trans; [|apply legacyGround_keepsCombat].
  eapply keepsCombat_trans; [|apply applyFriction_keepsCombat].
  destruct (flying (startFlying inp f)).
  - apply flyMove_keepsCombat.
  - apply groundMove_keepsCombat.
Qed.

(** [update] is the action block between the movement and the hurt and
    fallback steps. *)
Lemma update_unfold dt now inp f :
  update dt now inp f
  = stateFallback (hurtStep dt (actions dt inp (beforeActions dt now inp f))).
Proof. reflexivity. Qed.

(** ** The action block *)

(** What the parry step leaves alone. *)
Lemma parryStep_frame dt inp f :
  let f' := parryStep dt inp f in
  damagePercent f' = damagePercent f /\ hp f' = hp f
  /\ attack1Launched f' = attack1Launched f
  /\ attack2Launched f' = attack2Launched f
  /\ attacking1 f' = attacking1 f /\ attacking2 f' = attacking2 f
  /\ ranging1 f' = ranging1 f /\ ranging2 f' = ranging2 f
  /\ flying f' = flying f /\ hurt f' = hurt f.
Proof. cbv zeta. unfold parryStep, setState. frame_by_cases. Qed.


(** A parry that is on after the step started under its guard or was on. *)
Lemma parryStep_parrying dt inp f :
  parrying (parryStep dt inp f) = true ->
  parryStarts inp f = true \/ parrying f = true.
Proof.
  unfold parryStep.
  destruct (parryStarts inp f) eqn:Hs; [intros _; left; reflexivity|].
  intros H. right. revert H. unfold setState. split_tests; cbn; auto; try congruence.
Qed.

Lemma attack1Step_frame dt inp f :
  let f' := attack1Step dt inp f in
  damagePercent f' = damagePercent f /\ hp f' = hp f
  /\ attack2Launched f' = attack2Launched f
  /\ parrying f' = parrying f /\ parryConsumed f' = parryConsumed f
  /\ attacking2 f' = attacking2 f
  /\ ranging1 f' = ranging1 f /\ ranging2 f' = ranging2 f
  /\ flying f' = flying f /\ hurt f' = hurt f
  /\ attack1Launched f' = (if attack1Starts inp f then false else attack1Launched f)
  /\ (attacking1 f' = true -> attack1Starts inp f = true \/ attacking1 f = true).
Proof.
  cbv zeta. unfold attack1Step.
  destruct (attack1Starts inp f) eqn:Hs; frame_by_cases; auto.
Qed.

Lemma attack2Step_frame dt inp f :
  let f' := attack2Step dt inp f in
  damagePercent f' = damagePercent f /\ hp f' = hp f
  /\ attack1Launched f' = attack1Launched f
  /\ parrying f' = parrying f /\ parryConsumed f' = parryConsumed f
  /\ attacking1 f' = attacking1 f
  /\ ranging1 f' = ranging1 f /\ ranging2 f' = ranging2 f
  /\ flying f' = flying f /\ hurt f' = hurt f
  /\ attack2Launched f' = (if attack2Starts inp f then false else attack2Launched f)
  /\ (attacking2 f' = true -> attack2Starts inp f = true \/ attacking2 f = true).
Proof.
  cbv zeta. unfold attack2Step.
  destruct (attack2Starts inp f) eqn:Hs; frame_by_cases; auto.
Qed.

Lemma ranged1Step_frame dt inp f :
  let f' := ranged1Step dt inp f in
  damagePercent f' = damagePercent f /\ hp f' = hp f
  /\ attack1Launched f' = attack1Launched f
  /\ attack2Launched f' = attack2Launched f
  /\ parrying f' = parrying f /\ parryConsumed f' = parryConsumed f
  /\ attacking1 f' = attacking1 f /\ attacking2 f' = attacking2 f
  /\ ranging2 f' = ranging2 f
  /\ flying f' = flying f /\ hurt f' = hurt f
  /\ (ranging1 f' = true -> parrying f = false \/ ranging1 f = true).
Proof.
  cbv zeta. unfold ranged1Step.
  destruct (i_ranged1 inp); destruct (ranging1 f) eqn:?; destruct (parrying f) eqn:?;
    frame_by_cases; auto.
Qed.

Lemma ranged2Step_frame inp f :
  let f' := ranged2Step inp f in
  damagePercent f' = damagePercent f /\ hp f' = hp f
  /\ attack1Launched f' = attack1Launched f
  /\ attack2Launched f' = attack2Launched f
  /\ parrying f' = parrying f /\ parryConsumed f' = parryConsumed f
  /\ attacking1 f' = attacking1 f /\ attacking2 f' = attacking2 f
  /\ ranging1 f' = ranging1 f
  /\ flying f' = flying f /\ hurt f' = hurt f
  /\ (ranging2 f' = true -> parrying f = false \/ ranging2 f = true).
Proof.
  cbv zeta. unfold ranged2Step.
  destruct (i_ranged2 inp); destruct (ranging2 f) eqn:?; destruct (parrying f) eqn:?;
    frame_by_cases; auto.
Qed.

(** The percent and the hit points are not written by [update]. *)
Lemma actions_percent dt inp f :
  damagePercent (actions dt inp f) = damagePercent f /\ hp (actions dt inp f) = hp f.
Proof.
  unfold actions. destruct (flying f); cbn; [split; reflexivity|].
  destruct (ranged2Step_frame inp
              (ranged1Step dt inp (attack2Step dt inp (attack1Step dt inp (parryStep dt inp f)))))
    as (E1 & H1 & _).
  destruct (ranged1Step_frame dt inp
              (attack2Step dt inp (attack1Step dt inp (parryStep dt inp f))))
    as (E2 & H2 & _).
  destruct (attack2Step_frame dt inp (attack1Step dt inp (parryStep dt inp f)))
    as (E3 & H3 & _).
  destruct (attack1Step_frame dt inp (parryStep dt inp f)) as (E4 & H4 & _).
  destruct (parryStep_frame dt inp f) as (E5 & H5 & _).
  split; congruence.
Qed.

Lemma update_percent dt now inp f :
  damagePercent (update dt now inp f) = damagePercent f
  /\ hp (update dt now inp f) = hp f.
Proof.
  rewrite update_unfold.
  destruct (stateFallback_keepsCombat
              (hurtStep dt (actions dt inp (beforeActions dt now inp f))))
    as (E1 & H1 & _).
  destruct (hurtStep_keepsCombat dt (actions dt inp (beforeActions dt now inp f)))
    as (E2 & H2 & _).
  destruct (actions_percent dt inp (beforeActions dt now inp f)) as (E3 & H3).
  destruct (beforeActions_keepsCombat dt now inp f) as (E4 & H4 & _).
  split; congruence.
Qed.

(** The launch flags after the action block: reset exactly by the start of
    a new attack instance. *)
Lemma actions_launch dt inp f :
  flying f = false ->
  attack1Launched (actions dt inp f)
  = (if attack1Starts inp (parryStep dt inp f) then false else attack1Launched f)
  /\ attack2Launched (actions dt inp f)
     = (if attack2Starts inp (attack1Step dt inp (parryStep dt inp f))
        then false else attack2Launched f).
Proof.
  intros Hfly. unfold actions. rewrite Hfly. cbn.
  destruct (ranged2Step_frame inp
              (ranged1Step dt inp (attack2Step dt inp (attack1Step dt inp (parryStep dt inp f)))))
    as (_ & _ & A1 & B1 & _).
  destruct (ranged1Step_frame dt inp
              (attack2Step dt inp (attack1Step dt inp (parryStep dt inp f))))
    as (_ & _ & A2 & B2 & _).
  destruct (attack2Step_frame dt inp (attack1Step dt inp (parryStep dt inp f)))
    as (_ & _ & A3 & _ & _ & _ & _ & _ & _ & _ & B3 & _).
  destruct (attack1Step_frame dt inp (parryStep dt inp f))
    as (_ & _ & B4 & _ & _ & _ & _ & _ & _ & _ & A4 & _).
  destruct (parryStep_frame dt inp f) as (_ & _ & A5 & B5 & _).
  split.
  - rewrite A1, A2, A3, A4. destruct (attack1Starts _ _); congruence.
  - rewrite B1, B2, B3. destruct (attack2Starts _ _); congruence.
Qed.

Lemma update_launch lf dt now inp f :
  getLaunch lf (update dt now inp f)
  = (if updateStartsAttack lf dt now inp f then false else getLaunch lf f).
Proof.
  rewrite update_unfold. unfold updateStartsAttack. cbv zeta.
  set (g := beforeActions dt now inp f).
  destruct (stateFallback_keepsCombat (hurtStep dt (actions dt inp g)))
    as (_ & _ & A1 & B1 & _).
  destruct (hurtStep_keepsCombat dt (actions dt inp g)) as (_ & _ & A2 & B2 & _).
  destruct (beforeActions_keepsCombat dt now inp f) as (_ & _ & A4 & B4 & _).
  fold g in A4, B4.
  destruct (flying g) eqn:Hfly.
  - cbn. unfold actions in *. rewrite Hfly in *. cbn in *.
    destruct lf; cbn; congruence.
  - destruct (actions_launch dt inp g Hfly) as (A3 & B3).
    destruct lf; cbn.
    + rewrite A1, A2, A3. destruct (attack1Starts _ _); congruence.
    + rewrite B1, B2, B3. destruct (attack2Starts _ _); congruence.
Qed.



(** ** The melee block *)

(** From here on the methods are used through their lemmas. *)
Arguments receiveHit : simpl never.
Arguments takeDamage : simpl never.
Arguments update : simpl never.
Arguments landAt : simpl never.

Lemma takeDamage_frame n f :
  let f' := takeDamage n f in
  damagePercent f' = damagePercent f
  /\ attack1Launched f' = attack1Launched f
  /\ attack2Launched f' = attack2Launched f
  /\ parrying f' = parrying f /\ parryConsumed f' = parryConsumed f
  /\ attacking1 f' = attacking1 f /\ attacking2 f' = attacking2 f
  /\ ranging1 f' = ranging1 f /\ ranging2 f' = ranging2 f
  /\ flying f' = flying f /\ parryFreezeTimer f' = parryFreezeTimer f.
Proof. cbv zeta. unfold takeDamage. frame_by_cases. Qed.

Lemma receiveHit_percent_le pct kb str ang f :
  0 <= pct -> damagePercent f <= damagePercent (receiveHit pct kb str ang f).
Proof.
  intros Hpct. destruct (isDefeatState f) eqn:Hd.
  - apply isDefeatState_true in Hd. rewrite receiveHit_defeated by exact Hd.
    apply Qle_refl.
  - apply isDefeatState_false in Hd. rewrite receiveHit_percent by exact Hd.
    lra.
Qed.

Lemma setLaunch_frame lf v f :
  let f' := setLaunch lf v f in
  damagePercent f' = damagePercent f /\ hp f' = hp f /\ state f' = state f
  /\ parrying f' = parrying f /\ parryConsumed f' = parryConsumed f
  /\ attacking1 f' = attacking1 f /\ attacking2 f' = attacking2 f
  /\ ranging1 f' = ranging1 f /\ ranging2 f' = ranging2 f
  /\ parryFreezeTimer f' = parryFreezeTimer f /\ x f' = x f.
Proof. destruct lf; cbn; repeat split; reflexivity. Qed.

Lemma getLaunch_setLaunch lf lf' f :
  getLaunch lf (setLaunch lf' true f)
  = (if bool_decide (lf' = lf) then true else getLaunch lf f).
Proof. destruct lf, lf'; reflexivity. Qed.

Lemma getLaunch_receiveHit lf pct kb str ang f :
  getLaunch lf (receiveHit pct kb str ang f) = getLaunch lf f.
Proof.
  destruct (receiveHit_frame pct kb str ang f)
    as (_ & _ & _ & _ & _ & _ & _ & _ & _ & _ & _ & _ & _ & H1 & H2 & _).
  destruct lf; cbn; assumption.
Qed.

Lemma getLaunch_takeDamage lf n f :
  getLaunch lf (takeDamage n f) = getLaunch lf f.
Proof.
  destruct (takeDamage_frame n f) as (_ & H1 & H2 & _).
  destruct lf; cbn; assumption.
Qed.

(** The guards of a melee block, spelled out. *)
Lemma meleeGuard_Some hb a d lf :
  meleeGuard hb a d = Some lf ->
  (exists h1, hb = Some h1 /\ aabb h1 (rect d) = true)
  /\ attacking a = true
  /\ lf = (if attacking1 a then Attack1Launched else Attack2Launched)
  /\ getLaunch lf a = false.
Proof.
  unfold meleeGuard, attacking. destruct hb as [h1|]; [|discriminate].
  destruct (aabb h1 (rect d)) eqn:Hov; [|discriminate].
  destruct (attacking1 a || attacking2 a); [|discriminate].
  cbv zeta.
  destruct (getLaunch (if attacking1 a then Attack1Launched else Attack2Launched) a) eqn:Hl;
    [discriminate|].
  cbn. intros H. injection H as <-.
  repeat split; eauto.
Qed.

(** The block in normal form: the two tests on the defender's parry are
    complementary, so exactly one of the branches runs. *)
Lemma meleeBlock_cases sp hb a d :
  meleeBlock sp hb a d =
  match meleeGuard hb a d with
  | None => (a, d, NoResolution)
  | Some lf =>
      let a0 := setLaunch lf true a in
      if parryArmed d then
        let d0 := set_parryFreezeTimer 0.15 (set_parryConsumed true d) in
        if ranging a then (a0, d0, ParryNegated lf)
        else (receiveHit 20 120 1
                (Some (if Qltb (x d) (x a) then Math_PI else angle0)) a0,
              d0, ParryReflected lf)
      else if sp then
        (a0, takeDamage (Math_ceil (inject_Z (maxHpOr1 d) / 3)) d, MeleeHit lf)
      else
        (a0, receiveHit 30 140 0.6
               (Some (if Qltb (x a) (x d) then Math_PI else angle0)) d,
         MeleeHit lf)
  end.
Proof.
  unfold meleeBlock, parryArmed, ranging.
  destruct (meleeGuard hb a d) as [lf|]; [|reflexivity].
  cbv zeta.
  destruct (setLaunch_frame lf true a)
    as (_ & _ & _ & _ & _ & _ & _ & R1 & R2 & _ & X).
  rewrite R1, R2, !X.
  destruct (parrying d), (parryConsumed d); cbn [andb orb negb]; reflexivity.
Qed.

Lemma meleeBlock_outcome sp hb a d :
  consumedFlag (snd (meleeBlock sp hb a d)) = meleeGuard hb a d.
Proof.
  rewrite meleeBlock_cases. destruct (meleeGuard hb a d) as [lf|]; [|reflexivity].
  cbv zeta. destruct (parryArmed d); [destruct (ranging a)|destruct sp]; reflexivity.
Qed.

(** The attacker's side of a block. *)
Lemma meleeBlock_attacker sp hb a d :
  let a' := fst (fst (meleeBlock sp hb a d)) in
  (forall lf, getLaunch lf a'
              = (if bool_decide (meleeGuard hb a d = Some lf) then true
                 else getLaunch lf a))
  /\ parrying a' = parrying a /\ parryConsumed a' = parryConsumed a
  /\ parryFreezeTimer a' = parryFreezeTimer a
  /\ damagePercent a <= damagePercent a'.
Proof.
  cbv zeta. rewrite meleeBlock_cases.
  destruct (meleeGuard hb a d) as [lf0|].
  2:{ cbn. repeat split; try reflexivity; try apply Qle_refl. }
  cbv zeta.
  destruct (setLaunch_frame lf0 true a)
    as (P0 & _ & _ & P1 & P2 & _ & _ & _ & _ & P3 & _).
  assert (HL : forall lf, getLaunch lf (setLaunch lf0 true a)
                          = (if bool_decide (Some lf0 = Some lf) then true
                             else getLaunch lf a)).
  { intros lf. rewrite getLaunch_setLaunch.
    destruct (bool_decide (lf0 = lf)) eqn:E1, (bool_decide (Some lf0 = Some lf)) eqn:E2;
      try reflexivity.
    - apply bool_decide_eq_true in E1. apply bool_decide_eq_false in E2. congruence.
    - apply bool_decide_eq_false in E1. apply bool_decide_eq_true in E2. congruence. }
  destruct (parryArmed d); [destruct (ranging a)|destruct sp]; cbn [fst snd].
  - repeat split; try assumption. rewrite P0. apply Qle_refl.
  - destruct (receiveHit_frame 20 120 1
                (Some (if Qltb (x d) (x a) then Math_PI else angle0))
                (setLaunch lf0 true a))
      as (_ & _ & _ & _ & _ & _ & _ & _ & _ & Q1 & _ & _ & _ & _ & _ & Q2 & Q3).
    repeat split; try congruence.
    + intros lf. rewrite getLaunch_receiveHit. apply HL.
    + rewrite <- P0. apply receiveHit_percent_le. lra.
  - repeat split; try assumption. rewrite P0. apply Qle_refl.
  - repeat split; try assumption. rewrite P0. apply Qle_refl.
Qed.

(** The defender's side of a block. *)
Lemma meleeBlock_defender sp hb a d :
  let d' := snd (fst (meleeBlock sp hb a d)) in
  let o := snd (meleeBlock sp hb a d) in
  (forall lf, getLaunch lf d' = getLaunch lf d)
  /\ damagePercent d <= damagePercent d'
  /\ (isParried o = true ->
      parryArmed d = true /\ parryConsumed d' = true /\ parrying d' = parrying d
      /\ parryFreezeTimer d' = 0.15
      /\ damagePercent d' = damagePercent d /\ hp d' = hp d)
  /\ (isParried o = false ->
      parrying d' = parrying d /\ parryConsumed d' = parryConsumed d).
Proof.
  cbv zeta. rewrite meleeBlock_cases.
  destruct (meleeGuard hb a d) as [lf0|].
  2:{ cbn. repeat split; try reflexivity; try apply Qle_refl; discriminate. }
  cbv zeta.
  destruct (parryArmed d) eqn:Harm; [destruct (ranging a)|destruct sp]; cbn [fst snd isParried].
  - repeat split; try reflexivity; try apply Qle_refl; try discriminate.
  - repeat split; try reflexivity; try apply Qle_refl; try discriminate.
  - destruct (takeDamage_frame (Math_ceil (inject_Z (maxHpOr1 d) / 3)) d)
      as (T0 & _ & _ & T1 & T2 & _).
    repeat split; try assumption; try discriminate.
    + intros lf. apply getLaunch_takeDamage.
    + rewrite T0. apply Qle_refl.
  - destruct (receiveHit_frame 30 140 0.6
                (Some (if Qltb (x a) (x d) then Math_PI else angle0)) d)
      as (_ & _ & _ & _ & _ & _ & _ & _ & _ & Q1 & _ & _ & _ & _ & _ & Q2 & _).
    repeat split; try assumption; try discriminate.
    + intros lf. apply getLaunch_receiveHit.
    + apply receiveHit_percent_le. lra.
Qed.

(** ** The projectile loop *)

Lemma rangedHit_frame pr d :
  let d' := rangedHit pr d in
  (forall lf, getLaunch lf d' = getLaunch lf d)
  /\ parrying d' = parrying d /\ parryConsumed d' = parryConsumed d
  /\ damagePercent d <= damagePercent d'.
Proof.
  cbv zeta. unfold rangedHit. cbv zeta.
  set (n := Z.max 1 (Math_ceil (inject_Z (maxHpOr1 d) / 12))).
  destruct (takeDamage_frame n d) as (T0 & _ & _ & T1 & T2 & _).
  destruct (applyKnockbackOnHit pr).
  - set (ang := Some (if Qltb (pr_vx pr) 0 then Math_PI else angle0)).
    destruct (receiveHit_frame 8 90 0.9 ang (takeDamage n d))
      as (_ & _ & _ & _ & _ & _ & _ & _ & _ & Q1 & _ & _ & _ & _ & _ & Q2 & _).
    repeat split; try congruence.
    + intros lf. rewrite getLaunch_receiveHit. apply getLaunch_takeDamage.
    + rewrite <- T0. apply receiveHit_percent_le. lra.
  - cbn. repeat split; try assumption.
    + intros lf. rewrite <- (getLaunch_takeDamage lf n d). destruct lf; reflexivity.
    + rewrite T0. lra.
Qed.

Lemma getSide_putSide s s0 f fs :
  getSide s (putSide s0 f fs) = if bool_decide (s = s0) then f else getSide s fs.
Proof. destruct s, s0, fs; reflexivity. Qed.

(** [pr.owner.stunTimer = 1.2] touches nothing but the stun timer. *)
Lemma stunOwner_frame o fs s :
  let f := getSide s fs in
  let f' := getSide s (stunOwner o fs) in
  (forall lf, getLaunch lf f' = getLaunch lf f)
  /\ parrying f' = parrying f /\ parryConsumed f' = parryConsumed f
  /\ damagePercent f' = damagePercent f /\ hp f' = hp f
  /\ parryFreezeTimer f' = parryFreezeTimer f.
Proof.
  cbv zeta. destruct o as [[|]|], s, fs as [f1 f2]; cbn;
    repeat split; try reflexivity; intros lf; destruct lf; reflexivity.
Qed.

(** The effect of one projectile test on either combatant [s]: the launch
    flags are kept, the percent does not fall, and the parry fields change
    only when this test was parried by [s], which needs an armed parry and
    consumes it. *)
Lemma projAgainst_effect s0 fs pr s :
  let r := projAgainst s0 fs pr in
  let f := getSide s fs in
  let f' := getSide s (fst (fst r)) in
  (forall lf, getLaunch lf f' = getLaunch lf f)
  /\ damagePercent f <= damagePercent f'
  /\ (isProjParried (snd r) = true -> s = s0 ->
      parryArmed f = true /\ parryConsumed f' = true /\ parrying f' = parrying f
      /\ parryFreezeTimer f' = 0.15
      /\ damagePercent f' = damagePercent f /\ hp f' = hp f)
  /\ ((isProjParried (snd r) = false \/ s <> s0) ->
      parrying f' = parrying f /\ parryConsumed f' = parryConsumed f).
Proof.
  cbv zeta. unfold projAgainst. cbv zeta.
  destruct (negb (bool_decide (pr_owner pr = Some s0)) && aabb (pr_rect pr) (rect (getSide s0 fs))).
  2:{ cbn [fst snd isProjParried]. repeat split; try reflexivity; try apply Qle_refl;
      discriminate. }
  destruct (parrying (getSide s0 fs)) eqn:Hp, (parryConsumed (getSide s0 fs)) eqn:Hc;
    cbn [andb orb negb fst snd isProjParried].
  - (* parry already consumed: a normal hit *)
    rewrite getSide_putSide.
    destruct (rangedHit_frame pr (getSide s0 fs)) as (R1 & R2 & R3 & R4).
    destruct (bool_decide (s = s0)) eqn:E.
    + apply bool_decide_eq_true in E. subst s0.
      repeat split; try assumption; try discriminate.
    + repeat split; try reflexivity; try apply Qle_refl; discriminate.
  - (* armed parry: the projectile is negated *)
    set (d0 := set_parryFreezeTimer 0.15 (set_parryConsumed true (getSide s0 fs))).
    destruct (stunOwner_frame (pr_owner pr) (putSide s0 d0 fs) s)
      as (S1 & S2 & S3 & S4 & S5 & S6).
    rewrite getSide_putSide in S1, S2, S3, S4, S5, S6.
    destruct (bool_decide (s = s0)) eqn:E.
    + apply bool_decide_eq_true in E. subst s0.
      split; [intros lf; rewrite S1; destruct lf; reflexivity|].
      split; [rewrite S4; apply Qle_refl|].
      split.
      * intros _ _. unfold parryArmed. rewrite S2, S3, S4, S5, S6.
        subst d0. cbn. rewrite Hp, Hc. repeat split; reflexivity.
      * intros [Hf | Hne]; [discriminate | congruence].
    + apply bool_decide_eq_false in E.
      split; [exact S1|]. split; [rewrite S4; apply Qle_refl|].
      split; [intros _ Heq; congruence|].
      intros _. split; assumption.
  - (* not parrying: a normal hit *)
    rewrite getSide_putSide.
    destruct (rangedHit_frame pr (getSide s0 fs)) as (R1 & R2 & R3 & R4).
    destruct (bool_decide (s = s0)) eqn:E.
    + apply bool_decide_eq_true in E. subst s0.
      repeat split; try assumption; try discriminate.
    + repeat split; try reflexivity; try apply Qle_refl; discriminate.
  - rewrite getSide_putSide.
    destruct (rangedHit_frame pr (getSide s0 fs)) as (R1 & R2 & R3 & R4).
    destruct (bool_decide (s = s0)) eqn:E.
    + apply bool_decide_eq_true in E. subst s0.
      repeat split; try assumption; try discriminate.
    + repeat split; try reflexivity; try apply Qle_refl; discriminate.
Qed.

Lemma passEffect_trans n m f g k :
  passEffect n f g -> passEffect m g k -> passEffect (n + m) f k.
Proof.
  intros (L1 & D1 & A1) (L2 & D2 & A2). repeat split.
  - intros lf. rewrite L2. apply L1.
  - eapply Qle_trans; eassumption.
  - lia.
Qed.

Lemma projAgainst_passEffect s0 fs pr s :
  let r := projAgainst s0 fs pr in
  passEffect (b2n (bool_decide (s = s0) && isProjParried (snd r)))
    (getSide s fs) (getSide s (fst (fst r))).
Proof.
  cbv zeta.
  destruct (projAgainst_effect s0 fs pr s) as (L & D & Hpar & Hnot).
  repeat split; [exact L | exact D |].
  destruct (bool_decide (s = s0)) eqn:E.
  - apply bool_decide_eq_true in E.
    destruct (isProjParried (snd (projAgainst s0 fs pr))) eqn:Ho.
    + destruct (Hpar eq_refl E) as (Ha & Hc & _).
      unfold parryArmed at 1. rewrite Hc, Ha, andb_false_r. cbn. lia.
    + destruct (Hnot (or_introl eq_refl)) as (Hp & Hc).
      unfold parryArmed. rewrite Hp, Hc. cbn. lia.
  - apply bool_decide_eq_false in E.
    destruct (Hnot (or_intror E)) as (Hp & Hc).
    unfold parryArmed. rewrite Hp, Hc. cbn. lia.
Qed.

Lemma projStep_passEffect env fs pr s :
  let r := projStep env fs pr in
  passEffect (b2n (isProjParried (projOutcomeOf s (stepOutcomes r))))
    (getSide s fs) (getSide s (stepFighters r)).
Proof.
  cbv zeta. unfold projStep, stepFighters, stepOutcomes.
  assert (Hid : forall f, passEffect 0 f f).
  { intros f. repeat split; [apply Qle_refl | cbn; lia]. }
  destruct (negb (pr_alive pr)).
  { destruct s; cbn; apply Hid. }
  cbv zeta.
  destruct (isSolidAtCanvasPoint env _ _).
  { destruct s; cbn; apply Hid. }
  pose proof (projAgainst_passEffect P1 fs pr s) as H1. cbv zeta in H1.
  destruct (projAgainst P1 fs pr) as [[fs1 pr1] o1] eqn:E1. cbn [fst snd] in H1.
  pose proof (projAgainst_passEffect P2 fs1 pr1 s) as H2. cbv zeta in H2.
  destruct (projAgainst P2 fs1 pr1) as [[fs2 pr2] o2] eqn:E2. cbn [fst snd] in H2.
  cbn [fst snd].
  pose proof (passEffect_trans _ _ _ _ _ H1 H2) as H.
  destruct s; cbn [projOutcomeOf fst snd bool_decide andb] in *.
  - rewrite !bool_decide_eq_true_2 in H by reflexivity.
    rewrite bool_decide_eq_false_2 in H by discriminate.
    cbn [andb b2n] in H. rewrite Nat.add_0_r in H. exact H.
  - rewrite bool_decide_eq_false_2 in H by discriminate.
    rewrite bool_decide_eq_true_2 in H by reflexivity.
    cbn [andb b2n] in H. exact H.
Qed.

Lemma projLoop_passEffect env prs : forall fs s,
  let r := projLoop env fs prs in
  passEffect (parriedCount s (snd r)) (getSide s fs) (getSide s (fst (fst r))).
Proof.
  induction prs as [|pr rest IH]; intros fs s; cbv zeta.
  - cbn. repeat split; [apply Qle_refl | lia].
  - cbn [projLoop].
    pose proof (projStep_passEffect env fs pr s) as H1. cbv zeta in H1.
    unfold stepFighters, stepOutcomes in H1.
    destruct (projStep env fs pr) as [[[fs1 pr1] o1] o2] eqn:E1. cbn [fst snd] in H1.
    pose proof (IH fs1 s) as H2. cbv zeta in H2.
    destruct (projLoop env fs1 rest) as [[fs2 rest2] os] eqn:E2. cbn [fst snd] in H2.
    cbn [fst snd].
    pose proof (passEffect_trans _ _ _ _ _ H1 H2) as H.
    unfold parriedCount in *. cbn [List.filter].
    destruct (isProjParried (projOutcomeOf s (o1, o2))); cbn [b2n length] in *; exact H.
Qed.

(** ** Steps of a run *)

Lemma fighter_set_fighter s s' f wd :
  fighter s (set_fighter s' f wd) = if bool_decide (s = s') then f else fighter s wd.
Proof. destruct s, s'; reflexivity. Qed.

Lemma fighter_onFighter s s' g wd :
  fighter s (onFighter s' g wd)
  = if bool_decide (s = s') then g (fighter s wd) else fighter s wd.
Proof. destruct s, s'; reflexivity. Qed.

Lemma fighter_set_projectiles s prs wd :
  fighter s (set_projectiles prs wd) = fighter s wd.
Proof. destruct s; reflexivity. Qed.

Lemma meleePass_blocks wd :
  meleePass wd
  = (set_fighter P2 (fst (fst (block2 wd)))
       (set_fighter P1 (snd (fst (block2 wd))) wd),
     snd (block1 wd), snd (block2 wd)).
Proof.
  unfold meleePass, block2, block1. cbv zeta.
  destruct (meleeBlock (npcController wd) (hitbox (p1 wd)) (p1 wd) (p2 wd))
    as [[a1 d2] o1].
  cbn [fst snd].
  destruct (meleeBlock (npcController wd) (hitbox (p2 wd)) d2 a1) as [[a2 d1] o2].
  reflexivity.
Qed.

(** The melee pass seen from combatant [s]: its launch flag [lf] is set
    exactly when its own block resolved on that flag, which requires the
    flag to be unset before; its percent does not fall; and its parry
    neutralises the opponent's attack only if armed, and is then spent. *)
Lemma meleePass_effect wd s :
  let f := fighter s wd in
  let f' := fighter s (step OpMelee wd) in
  (forall lf,
      getLaunch lf f'
      = (if bool_decide (consumedFlag (meleeOutcomeOf s wd) = Some lf) then true
         else getLaunch lf f))
  /\ (forall lf, consumedFlag (meleeOutcomeOf s wd) = Some lf -> getLaunch lf f = false)
  /\ damagePercent f <= damagePercent f'
  /\ (b2n (isParried (meleeOutcomeOf (other s) wd)) + b2n (parryArmed f')
      <= b2n (parryArmed f))%nat.
Proof.
  cbv zeta. unfold meleeOutcomeOf. cbn [step]. rewrite meleePass_blocks.
  cbn [fst snd].
  pose proof (meleeBlock_attacker (npcController wd) (hitbox (p1 wd)) (p1 wd) (p2 wd))
    as A1.
  pose proof (meleeBlock_defender (npcController wd) (hitbox (p1 wd)) (p1 wd) (p2 wd))
    as D1.
  pose proof (meleeBlock_outcome (npcController wd) (hitbox (p1 wd)) (p1 wd) (p2 wd))
    as O1.
  fold (block1 wd) in A1, D1, O1. cbv zeta in A1, D1.
  pose proof (meleeBlock_attacker (npcController wd) (hitbox (p2 wd))
                (snd (fst (block1 wd))) (fst (fst (block1 wd)))) as A2.
  pose proof (meleeBlock_defender (npcController wd) (hitbox (p2 wd))
                (snd (fst (block1 wd))) (fst (fst (block1 wd)))) as D2.
  pose proof (meleeBlock_outcome (npcController wd) (hitbox (p2 wd))
                (snd (fst (block1 wd))) (fst (fst (block1 wd)))) as O2.
  fold (block2 wd) in A2, D2, O2. cbv zeta in A2, D2.
  destruct A1 as (A1l & A1p & A1c & _ & A1d).
  destruct D1 as (D1l & D1d & D1par & D1not).
  destruct A2 as (A2l & A2p & A2c & _ & A2d).
  destruct D2 as (D2l & D2d & D2par & D2not).
  destruct s; rewrite !fighter_set_fighter;
    change (bool_decide (P1 = P2)) with false;
    change (bool_decide (P2 = P1)) with false;
    change (bool_decide (P1 = P1)) with true;
    change (bool_decide (P2 = P2)) with true;
    cbn [other fighter].
  - (* P1 attacks in the first block and defends in the second *)
    repeat split.
    + intros lf. rewrite D2l, A1l, O1. reflexivity.
    + intros lf Hc. rewrite O1 in Hc.
      apply meleeGuard_Some in Hc. tauto.
    + eapply Qle_trans; eassumption.
    + destruct (isParried (snd (block2 wd))) eqn:Hpar.
      * destruct (D2par eq_refl) as (Harm & Hc & _).
        unfold parryArmed in Harm |- *. rewrite Hc, andb_false_r.
        rewrite A1p, A1c in Harm. rewrite Harm. cbn. lia.
      * destruct (D2not eq_refl) as (Hp & Hc).
        unfold parryArmed. rewrite Hp, Hc, A1p, A1c. cbn. lia.
  - (* P2 defends in the first block and attacks in the second *)
    repeat split.
    + intros lf. rewrite A2l, D1l, O2. reflexivity.
    + intros lf Hc. rewrite O2 in Hc.
      apply meleeGuard_Some in Hc. rewrite <- D1l. tauto.
    + eapply Qle_trans; eassumption.
    + destruct (isParried (snd (block1 wd))) eqn:Hpar.
      * destruct (D1par eq_refl) as (Harm & Hc & _).
        unfold parryArmed at 1. rewrite A2c, Hc, andb_false_r, Harm. cbn. lia.
      * destruct (D1not eq_refl) as (Hp & Hc).
        unfold parryArmed. rewrite A2p, A2c, Hp, Hc. cbn. lia.
Qed.

Lemma keepsCombat_launch f f' lf :
  keepsCombat f f' -> getLaunch lf f' = getLaunch lf f.
Proof.
  intros (_ & _ & L1 & L2 & _). destruct lf; cbn; assumption.
Qed.


Lemma keepsCombat_percent f f' :
  keepsCombat f f' -> damagePercent f' = damagePercent f.
Proof. intros (D & _). exact D. Qed.

(** The defeat writes and the fall handling keep the launch flags and can
    only disarm a parry. *)
Lemma clearActions_frame f :
  (forall lf, getLaunch lf (clearActions f) = getLaunch lf f)
  /\ parrying (clearActions f) = false
  /\ damagePercent (clearActions f) = damagePercent f.
Proof.
  unfold clearActions. cbn. repeat split; try (intros lf; destruct lf; reflexivity).
Qed.

Lemma autoDefeat_frame f :
  (forall lf, getLaunch lf (autoDefeat f) = getLaunch lf f)
  /\ (parryArmed (autoDefeat f) = true -> parryArmed f = true)
  /\ damagePercent (autoDefeat f) = damagePercent f.
Proof.
  unfold autoDefeat. destruct (isDefeated f && negb (isDefeatState f)).
  - destruct (clearActions_frame f) as (L & P & D).
    repeat split; try assumption. unfold parryArmed at 1. rewrite P. discriminate.
  - repeat split; auto.
Qed.


Lemma autoDefeat_percent f : damagePercent (autoDefeat f) = damagePercent f.
Proof. apply autoDefeat_frame. Qed.

Lemma autoDefeat_launch lf f : getLaunch lf (autoDefeat f) = getLaunch lf f.
Proof. apply autoDefeat_frame. Qed.

Lemma offBottomNPC_frame f :
  (forall lf, getLaunch lf (offBottomNPC f) = getLaunch lf f)
  /\ (parryArmed (offBottomNPC f) = true -> parryArmed f = true)
  /\ damagePercent (offBottomNPC f) = damagePercent f.
Proof.
  unfold offBottomNPC, clearActions, parryArmed. cbn.
  repeat split; try (intros lf; destruct lf; reflexivity); try discriminate.
Qed.


Lemma aiForceParry_frame f :
  (forall lf, getLaunch lf (aiForceParry f) = getLaunch lf f)
  /\ parryArmed (aiForceParry f) = true
  /\ damagePercent (aiForceParry f) = damagePercent f.
Proof.
  unfold aiForceParry, parryArmed. cbn.
  repeat split; try (intros lf; destruct lf; reflexivity).
Qed.

Lemma projectilePass_effect wd s :
  passEffect (neutralisedAt s OpProjectilePass wd)
    (fighter s wd) (fighter s (step OpProjectilePass wd)).
Proof.
  cbn [step neutralisedAt]. unfold projectilePass.
  pose proof (projLoop_passEffect (stage wd) (projectiles wd) (p1 wd, p2 wd) s) as H.
  cbv zeta in H. unfold parriedCount in H.
  destruct (projLoop (stage wd) (p1 wd, p2 wd) (projectiles wd)) as [[fs prs] os].
  cbn [fst snd] in *. destruct s; exact H.
Qed.


(** No step other than P1's respawn lowers a damage percent. *)
Lemma percent_step op wd s :
  isRespawn op = false ->
  damagePercent (fighter s wd) <= damagePercent (fighter s (step op wd)).
Proof.
  assert (Heq : forall f', damagePercent f' = damagePercent (fighter s wd) ->
                 damagePercent (fighter s wd) <= damagePercent f').
  { intros f' ->. apply Qle_refl. }
  destruct op; cbn [isRespawn]; intros Hr; try discriminate Hr.
  - cbn [step]. rewrite fighter_onFighter.
    destruct (bool_decide (s = s0)); [|apply Qle_refl].
    apply Heq, update_percent.
  - cbn [step]. rewrite fighter_onFighter.
    destruct (bool_decide (s = s0)); [|apply Qle_refl].
    apply Heq, keepsCombat_percent, landAt_keepsCombat.
  - cbn [step]. rewrite fighter_onFighter.
    destruct (bool_decide (s = s0)); [|apply Qle_refl].
    apply Heq, keepsCombat_percent, stageWrite_keepsCombat.
  - cbn [step]. rewrite fighter_onFighter.
    destruct (bool_decide (s = P2)); [|apply Qle_refl].
    apply Heq, offBottomNPC_frame.
  - cbn [step]. rewrite fighter_set_projectiles. apply Qle_refl.
  - apply (meleePass_effect wd s).
  - apply (projectilePass_effect wd s).
  - cbn [step]. rewrite !fighter_onFighter.
    destruct (bool_decide (s = P2)), (bool_decide (s = P1)); apply Heq;
      rewrite ?autoDefeat_percent; reflexivity.
  - cbn [step]. rewrite fighter_onFighter.
    destruct (bool_decide (s = P2)); [|apply Qle_refl].
    apply Heq, aiForceParry_frame.
Qed.

(** ** Fields the combat pass never writes *)

Section PassFrame.
Context {A : Type} (proj : Fighter -> A).
Hypothesis proj_takeDamage : forall n f, proj (takeDamage n f) = proj f.
Hypothesis proj_receiveHit :
  forall pct kb str ang f, proj (receiveHit pct kb str ang f) = proj f.
Hypothesis proj_percent : forall v f, proj (set_damagePercent v f) = proj f.
Hypothesis proj_consumed : forall v f, proj (set_parryConsumed v f) = proj f.
Hypothesis proj_freeze : forall v f, proj (set_parryFreezeTimer v f) = proj f.
Hypothesis proj_stun : forall v f, proj (set_stunTimer v f) = proj f.
Hypothesis proj_launch : forall lf v f, proj (setLaunch lf v f) = proj f.

Lemma rangedHit_proj pr d : proj (rangedHit pr d) = proj d.
Proof.
  unfold rangedHit. cbv zeta. destruct (applyKnockbackOnHit pr).
  - now rewrite proj_receiveHit, proj_takeDamage.
  - now rewrite proj_percent, proj_takeDamage.
Qed.

Lemma stunOwner_proj o fs s :
  proj (getSide s (stunOwner o fs)) = proj (getSide s fs).
Proof.
  destruct o as [[|]|], s, fs as [f1 f2]; cbn [stunOwner getSide fst snd];
    rewrite ?proj_stun; reflexivity.
Qed.

Lemma projAgainst_proj s0 fs pr s :
  proj (getSide s (fst (fst (projAgainst s0 fs pr)))) = proj (getSide s fs).
Proof.
  unfold projAgainst. cbv zeta.
  destruct (_ && _); [|reflexivity].
  destruct (_ && _); cbn [fst snd].
  - rewrite stunOwner_proj, getSide_putSide.
    destruct (bool_decide (s = s0)) eqn:E; [|reflexivity].
    apply bool_decide_eq_true in E. subst s0.
    now rewrite proj_freeze, proj_consumed.
  - destruct (_ || _); cbn [fst snd]; [|reflexivity].
    rewrite getSide_putSide.
    destruct (bool_decide (s = s0)) eqn:E; [|reflexivity].
    apply bool_decide_eq_true in E. subst s0. apply rangedHit_proj.
Qed.

Lemma projStep_proj env fs pr s :
  proj (getSide s (stepFighters (projStep env fs pr))) = proj (getSide s fs).
Proof.
  unfold projStep, stepFighters.
  destruct (negb (pr_alive pr)); [reflexivity|]. cbv zeta.
  destruct (isSolidAtCanvasPoint env _ _); [reflexivity|].
  pose proof (projAgainst_proj P1 fs pr s) as H1.
  destruct (projAgainst P1 fs pr) as [[fs1 pr1] o1]. cbn [fst snd] in H1.
  pose proof (projAgainst_proj P2 fs1 pr1 s) as H2.
  destruct (projAgainst P2 fs1 pr1) as [[fs2 pr2] o2]. cbn [fst snd] in H2 |- *.
  congruence.
Qed.

Lemma projLoop_proj env prs : forall fs s,
  proj (getSide s (fst (fst (projLoop env fs prs)))) = proj (getSide s fs).
Proof.
  induction prs as [|pr rest IH]; intros fs s; [reflexivity|].
  cbn [projLoop].
  pose proof (projStep_proj env fs pr s) as H1. unfold stepFighters in H1.
  destruct (projStep env fs pr) as [[[fs1 pr1] o1] o2]. cbn [fst snd] in H1.
  pose proof (IH fs1 s) as H2.
  destruct (projLoop env fs1 rest) as [[fs2 rest2] os]. cbn [fst snd] in H2 |- *.
  congruence.
Qed.

Lemma projectilePass_proj wd s :
  proj (fighter s (step OpProjectilePass wd)) = proj (fighter s wd).
Proof.
  cbn [step]. unfold projectilePass.
  pose proof (projLoop_proj (stage wd) (projectiles wd) (p1 wd, p2 wd) s) as H.
  destruct (projLoop (stage wd) (p1 wd, p2 wd) (projectiles wd)) as [[fs prs] os].
  cbn [fst snd] in *. destruct s; exact H.
Qed.

Lemma meleeBlock_proj sp hb a d :
  proj (fst (fst (meleeBlock sp hb a d))) = proj a
  /\ proj (snd (fst (meleeBlock sp hb a d))) = proj d.
Proof.
  rewrite meleeBlock_cases. destruct (meleeGuard hb a d) as [lf|];
    [|split; reflexivity].
  cbv zeta. destruct (parryArmed d); [destruct (ranging a)|destruct sp];
    cbn [fst snd];
    rewrite ?proj_receiveHit, ?proj_takeDamage, ?proj_launch, ?proj_freeze,
      ?proj_consumed; split; reflexivity.
Qed.

Lemma meleePass_proj wd s :
  proj (fighter s (step OpMelee wd)) = proj (fighter s wd).
Proof.
  cbn [step]. rewrite meleePass_blocks. cbn [fst].
  destruct (meleeBlock_proj (npcController wd) (hitbox (p1 wd)) (p1 wd) (p2 wd))
    as [A1 D1].
  fold (block1 wd) in A1, D1.
  destruct (meleeBlock_proj (npcController wd) (hitbox (p2 wd))
              (snd (fst (block1 wd))) (fst (fst (block1 wd)))) as [A2 D2].
  fold (block2 wd) in A2, D2.
  destruct s; rewrite !fighter_set_fighter;
    change (bool_decide (P1 = P2)) with false;
    change (bool_decide (P2 = P1)) with false;
    change (bool_decide (P1 = P1)) with true;
    change (bool_decide (P2 = P2)) with true;
    cbn [fighter]; congruence.
Qed.
End PassFrame.

Lemma attackingFor_pass lf wd s op :
  op = OpMelee \/ op = OpProjectilePass ->
  attackingFor lf (fighter s (step op wd)) = attackingFor lf (fighter s wd).
Proof.
  assert (T : forall n f, attackingFor lf (takeDamage n f) = attackingFor lf f).
  { intros n f. destruct (takeDamage_frame n f) as (_ & _ & _ & _ & _ & A1 & A2 & _).
    destruct lf; cbn; assumption. }
  assert (R : forall pct kb str ang f,
             attackingFor lf (receiveHit pct kb str ang f) = attackingFor lf f).
  { intros pct kb str ang f.
    destruct (receiveHit_frame pct kb str ang f)
      as (_ & _ & _ & _ & _ & _ & _ & A1 & A2 & _).
    destruct lf; cbn; assumption. }
  intros [-> | ->].
  - apply (meleePass_proj (attackingFor lf)); try assumption;
      intros; destruct lf; try reflexivity;
      match goal with l : LaunchFlag |- _ => destruct l; reflexivity end.
  - apply (projectilePass_proj (attackingFor lf)); try assumption;
      intros; destruct lf; reflexivity.
Qed.

(** An attack flag is on after [update] only if an instance started in this
    call or the flag was on before. *)
Lemma update_attacking lf dt now inp f :
  attackingFor lf (update dt now inp f) = true ->
  updateStartsAttack lf dt now inp f = true \/ attackingFor lf f = true.
Proof.
  rewrite update_unfold. unfold updateStartsAttack. cbv zeta.
  set (g := beforeActions dt now inp f).
  destruct (stateFallback_keepsCombat (hurtStep dt (actions dt inp g)))
    as (_ & _ & _ & _ & _ & _ & A1 & B1 & _).
  destruct (hurtStep_keepsCombat dt (actions dt inp g))
    as (_ & _ & _ & _ & _ & _ & A2 & B2 & _).
  destruct (beforeActions_keepsCombat dt now inp f)
    as (_ & _ & _ & _ & _ & _ & A4 & B4 & _).
  fold g in A4, B4.
  unfold actions in *. destruct (flying g) eqn:Hfly; cbn [negb andb] in *.
  - intros H. right. destruct lf; cbn [attackingFor] in *; congruence.
  - cbv zeta in *.
    set (f1 := parryStep dt inp g) in *.
    set (f2 := attack1Step dt inp f1) in *.
    set (f3 := attack2Step dt inp f2) in *.
    set (f4 := ranged1Step dt inp f3) in *.
    destruct (ranged2Step_frame inp f4)
      as (_ & _ & _ & _ & _ & _ & R1 & R2 & _).
    destruct (ranged1Step_frame dt inp f3)
      as (_ & _ & _ & _ & _ & _ & S1 & S2 & _).
    fold f4 in S1, S2.
    destruct (attack2Step_frame dt inp f2)
      as (_ & _ & _ & _ & _ & T1 & _ & _ & _ & _ & _ & T2).
    fold f3 in T1, T2.
    destruct (attack1Step_frame dt inp f1)
      as (_ & _ & _ & _ & _ & U2 & _ & _ & _ & _ & _ & U1).
    fold f2 in U1, U2.
    destruct (parryStep_frame dt inp g) as (_ & _ & _ & _ & P1' & P2' & _).
    fold f1 in P1', P2'.
    destruct lf; cbn [attackingFor]; intros H.
    + assert (H2 : attacking1 f2 = true) by congruence.
      destruct (U1 H2) as [Hs | Ha]; [left; exact Hs | right; congruence].
    + assert (H3 : attacking2 f3 = true) by congruence.
      destruct (T2 H3) as [Hs | Ha]; [left; exact Hs | right; congruence].
Qed.

Lemma keepsCombat_pending f f' lf :
  keepsCombat f f' -> pendingAttack lf f' = pendingAttack lf f.
Proof.
  intros H. pose proof (keepsCombat_launch f f' lf H) as HL.
  destruct H as (_ & _ & _ & _ & _ & _ & A1 & A2 & _).
  unfold pendingAttack. rewrite HL. destruct lf; cbn [attackingFor]; congruence.
Qed.

(** The defeat writes, the fall handling and the controller's parry leave no
    attack pending that was not pending before. *)
Lemma pendingAttack_writes lf f :
  (forall sx sy, pendingAttack lf (offBottomP1 sx sy f) = true -> pendingAttack lf f = true)
  /\ (pendingAttack lf (offBottomNPC f) = true -> pendingAttack lf f = true)
  /\ (pendingAttack lf (autoDefeat f) = true -> pendingAttack lf f = true)
  /\ (pendingAttack lf (aiForceParry f) = true -> pendingAttack lf f = true).
Proof.
  assert (Hclear : attackingFor lf (clearActions f) = false)
    by (destruct lf; reflexivity).
  unfold pendingAttack. repeat split.
  - intros sx sy. unfold offBottomP1. cbv zeta.
    destruct (stocks _ <=? 0)%Z.
    + assert (E : forall g, attackingFor lf (clearActions g) = false)
        by (intros g; destruct lf; reflexivity).
      rewrite E. discriminate.
    + destruct lf; cbn; auto.
  - unfold offBottomNPC. destruct lf; cbn; discriminate.
  - unfold autoDefeat. destruct (isDefeated f && negb (isDefeatState f)); [|auto].
    rewrite Hclear. discriminate.
  - unfold aiForceParry. destruct lf; cbn; auto.
Qed.

Lemma autoDefeat_pending lf f :
  pendingAttack lf (autoDefeat f) = true -> pendingAttack lf f = true.
Proof. apply pendingAttack_writes. Qed.

(** A melee resolution of [s] on flag [lf] finds that attack pending. *)
Lemma meleePass_pending wd s lf :
  consumedFlag (meleeOutcomeOf s wd) = Some lf ->
  pendingAttack lf (fighter s wd) = true.
Proof.
  unfold meleeOutcomeOf, pendingAttack. rewrite meleePass_blocks. cbn [fst snd].
  assert (Hg : forall hb a d, meleeGuard hb a d = Some lf ->
                attackingFor lf a && negb (getLaunch lf a) = true).
  { intros hb a d H. apply meleeGuard_Some in H.
    destruct H as (_ & Hatt & Hlf & Hl). rewrite Hl. cbn [negb]. rewrite andb_true_r.
    unfold attacking in Hatt. subst lf.
    destruct (attacking1 a) eqn:E1; cbn [attackingFor]; [exact E1 | exact Hatt]. }
  destruct s; cbn [fighter]; intros Hc.
  - unfold block1 in Hc. rewrite meleeBlock_outcome in Hc. exact (Hg _ _ _ Hc).
  - unfold block2 in Hc. rewrite meleeBlock_outcome in Hc.
    pose proof (Hg _ _ _ Hc) as H.
    destruct (meleeBlock_defender (npcController wd) (hitbox (p1 wd)) (p1 wd) (p2 wd))
      as (DL & _).
    cbv zeta in DL. fold (block1 wd) in DL. rewrite DL in H.
    assert (Ha : attackingFor lf (snd (fst (block1 wd))) = attackingFor lf (p2 wd)).
    { apply (meleeBlock_proj (attackingFor lf)).
      - intros n f. destruct (takeDamage_frame n f) as (_ & _ & _ & _ & _ & A1 & A2 & _).
        destruct lf; cbn; assumption.
      - intros pct kb str ang f.
        destruct (receiveHit_frame pct kb str ang f)
          as (_ & _ & _ & _ & _ & _ & _ & A1 & A2 & _).
        destruct lf; cbn; assumption.
      - intros; destruct lf; reflexivity.
      - intros; destruct lf; reflexivity.
      - intros l v f; destruct lf, l; reflexivity. }
    rewrite Ha in H. exact H.
Qed.

(** Every step leaves an attack of [s] pending only if it was pending
    before or an instance started at this step, and a melee resolution ends
    the pending attack. *)
Lemma launch_step op wd s lf :
  (resolvesAt s lf op wd + b2n (pendingAttack lf (fighter s (step op wd)))
   <= instanceStartsAt s lf op wd + b2n (pendingAttack lf (fighter s wd)))%nat.
Proof.
  assert (Hle : forall a b : bool, (a = true -> b = true) -> (0 + b2n a <= 0 + b2n b)%nat).
  { intros [|] [|] H; cbn; try lia; discriminate (H eq_refl). }
  destruct op; cbn [resolvesAt instanceStartsAt].
  - (* update *)
    cbn [step]. rewrite fighter_onFighter.
    destruct (bool_decide (s = s0)) eqn:E.
    + apply bool_decide_eq_true in E. subst s0.
      rewrite bool_decide_eq_true_2 by reflexivity. cbn [andb].
      unfold pendingAttack at 1. rewrite update_launch.
      pose proof (update_attacking lf dt now inp (fighter s wd)) as Hatt.
      destruct (updateStartsAttack lf dt now inp (fighter s wd)).
      * destruct (attackingFor lf _); cbn; lia.
      * destruct (attackingFor lf (update dt now inp (fighter s wd))); [|cbn; lia].
        destruct (Hatt eq_refl) as [Hs | Ha]; [discriminate|].
        unfold pendingAttack. rewrite Ha. cbn. lia.
    + assert (E' : bool_decide (s0 = s) = false).
      { apply bool_decide_eq_false. apply bool_decide_eq_false in E. congruence. }
      rewrite E'. cbn. lia.
  - cbn [step]. rewrite fighter_onFighter.
    destruct (bool_decide (s = s0)); [|lia].
    rewrite (keepsCombat_pending _ _ lf (landAt_keepsCombat yTop (fighter s wd))). lia.
  - cbn [step]. rewrite fighter_onFighter.
    destruct (bool_decide (s = s0)); [|lia].
    rewrite (keepsCombat_pending _ _ lf
               (stageWrite_keepsCombat nx ny nvx nvy nfacing g (fighter s wd))). lia.
  - cbn [step]. rewrite fighter_onFighter.
    destruct (bool_decide (s = P1)); [|lia].
    apply Hle, (pendingAttack_writes lf (fighter s wd)).
  - cbn [step]. rewrite fighter_onFighter.
    destruct (bool_decide (s = P2)); [|lia].
    apply Hle, (pendingAttack_writes lf (fighter s wd)).
  - cbn [step]. rewrite fighter_set_projectiles. lia.
  - (* melee *)
    destruct (meleePass_effect wd s) as (HL & _).
    unfold pendingAttack at 1.
    rewrite HL, (attackingFor_pass lf wd s OpMelee) by (left; reflexivity).
    destruct (bool_decide (consumedFlag (meleeOutcomeOf s wd) = Some lf)) eqn:E.
    + apply bool_decide_eq_true in E.
      rewrite (meleePass_pending wd s lf E), andb_false_r. cbn. lia.
    + unfold pendingAttack. cbn. lia.
  - destruct (projectilePass_effect wd s) as (HL & _).
    unfold pendingAttack.
    rewrite HL, (attackingFor_pass lf wd s OpProjectilePass) by (right; reflexivity).
    lia.
  - cbn [step]. rewrite !fighter_onFighter. apply Hle.
    destruct (bool_decide (s = P2)), (bool_decide (s = P1)); intros H;
      repeat (apply autoDefeat_pending in H); exact H.
  - cbn [step]. rewrite fighter_onFighter.
    destruct (bool_decide (s = P2)); [|lia].
    apply Hle, (pendingAttack_writes lf (fighter s wd)).
Qed.

(** ** One resolution per attack instance, one neutralised hit per parry *)

Lemma countSteps_bound (obs cost : Op -> World -> nat) (pot : World -> nat) :
  (forall op wd, (obs op wd + pot (step op wd) <= cost op wd + pot wd)%nat) ->
  forall ops wd,
    (countSteps obs ops wd + pot (run ops wd) <= countSteps cost ops wd + pot wd)%nat.
Proof.
  intros Hstep ops. induction ops as [|op rest IH]; intros wd; cbn [countSteps run].
  - lia.
  - specialize (IH (step op wd)). specialize (Hstep op wd). lia.
Qed.

Lemma resolutions_bound ops wd s lf :
  (resolutions s lf ops wd
   <= attackInstances s lf ops wd + b2n (pendingAttack lf (fighter s wd)))%nat.
Proof.
  pose proof (countSteps_bound (resolvesAt s lf) (instanceStartsAt s lf)
                (fun wd => b2n (pendingAttack lf (fighter s wd)))
                (fun op wd => launch_step op wd s lf) ops wd) as H.
  unfold resolutions, attackInstances. cbv beta in H. lia.
Qed.


(** A melee block that resolves an attack on a defender whose parry is not
    armed. *)
Lemma meleeBlock_hit sp hb a d lf :
  meleeGuard hb a d = Some lf ->
  parryArmed d = false ->
  let r := meleeBlock sp hb a d in
  snd r = MeleeHit lf
  /\ fst (fst r) = setLaunch lf true a
  /\ snd (fst r)
     = (if sp then takeDamage (Math_ceil (inject_Z (maxHpOr1 d) / 3)) d
        else receiveHit 30 140 0.6
               (Some (if Qltb (x a) (x d) then Math_PI else angle0)) d).
Proof.
  intros Hg Harm. cbv zeta. rewrite meleeBlock_cases, Hg. cbv zeta.
  rewrite Harm. destruct sp; repeat split; reflexivity.
Qed.

(** C2, as stated, fails in a single-player match: the melee hit that is not
    parried is applied by [takeDamage], and the defender's damage percent
    does not increase by the melee amount.  It also fails for "one press" in
    a versus match: a key held beyond the attack timer starts a second
    attack instance, which is resolved again (B ends at 60 percent). *)
Lemma C2_counterexample :
  parrying (fighter P2 (run (scenarioTick pressAttack1) singleplayerWorld)) = false
  /\ resolutions P1 Attack1Launched fiveTicks singleplayerWorld = 1%nat
  /\ damagePercent (fighter P2 singleplayerWorld) == 0
  /\ damagePercent (fighter P2 (run fiveTicks singleplayerWorld)) == 0
  /\ hp (fighter P2 (run fiveTicks singleplayerWorld)) = 2%Z
  /\ attackInstances P1 Attack1Launched heldAttack versusWorld = 2%nat
  /\ resolutions P1 Attack1Launched heldAttack versusWorld = 2%nat
  /\ damagePercent (fighter P2 (run heldAttack versusWorld)) == 60.
Proof.
  repeat split; vm_compute; reflexivity.
Qed.

(** C2 (amended): an attack instance is one start of attack1 or attack2 by
    [update] (the branch that resets the launch flag; a key that stays held
    starts the next instance when the 0.35 s timer has run out).  In any run
    of the loop's operations, the melee resolutions charged to one launch
    flag of an attacker are at most the attack instances started for that
    flag (plus one if such an attack was already running and unresolved at
    the start): each attack instance is resolved at most once, however long
    the hitbox overlaps.  When a block resolves an attack that is not
    parried, the flag is set and, in a versus match (no NPC controller) with
    a defender that is not defeated, the defender's damage percent increases
    by exactly 30; in a single-player match the hit goes through
    [takeDamage] and the damage percent is unchanged. *)
Theorem C2_melee_once_per_instance :
  forall (ops : list Op) (wd : World) (s : Side) (lf : LaunchFlag),
    (resolutions s lf ops wd
     <= attackInstances s lf ops wd + b2n (pendingAttack lf (fighter s wd)))%nat
    /\ (forall sp hb a d,
           meleeGuard hb a d = Some lf ->
           parryArmed d = false ->
           let r := meleeBlock sp hb a d in
           snd r = MeleeHit lf
           /\ getLaunch lf (fst (fst r)) = true
           /\ meleeGuard hb (fst (fst r)) (snd (fst r)) = None
           /\ (sp = false -> state d <> Defeat ->
               damagePercent (snd (fst r)) = damagePercent d + 30)
           /\ (sp = true -> damagePercent (snd (fst r)) = damagePercent d)).
Proof.
  intros ops wd s lf. split; [apply resolutions_bound|].
  intros sp hb a d Hg Harm. cbv zeta.
  destruct (meleeBlock_hit sp hb a d lf Hg Harm) as (Ho & Ha & Hd).
  assert (Hset : getLaunch lf (setLaunch lf true a) = true).
  { rewrite getLaunch_setLaunch. now rewrite bool_decide_eq_true_2. }
  repeat split.
  - exact Ho.
  - rewrite Ha. exact Hset.
  - (* the same overlap does not resolve again *)
    rewrite Ha.
    apply meleeGuard_Some in Hg. destruct Hg as (_ & Hatt & Hlf & _).
    destruct (setLaunch_frame lf true a)
      as (_ & _ & _ & _ & _ & A1 & A2 & _).
    unfold meleeGuard. destruct hb as [h1|]; [|reflexivity].
    destruct (aabb h1 _); [|reflexivity].
    rewrite A1, A2. unfold attacking in Hatt. rewrite Hatt. cbv zeta.
    rewrite <- Hlf, Hset. reflexivity.
  - intros Hsp Hnd. rewrite Hd, Hsp. apply receiveHit_percent. exact Hnd.
  - intros Hsp. rewrite Hd, Hsp. apply takeDamage_frame.
Qed.

(** The amended C2 on the scenario of the design document: A attacks once,
    the overlap persists for five ticks of a versus match, and B's damage
    percent is 30 at the end. *)
Lemma C2_melee_once_per_instance_witness :
  (resolutions P1 Attack1Launched fiveTicks versusWorld <= 1)%nat
  /\ damagePercent (fighter P2 (run fiveTicks versusWorld)) == 30
  /\ damagePercent
       (snd (fst (meleeBlock false
                    (hitbox (fighter P1 (run [OpUpdate P1 0.016 0 pressAttack1] versusWorld)))
                    (fighter P1 (run [OpUpdate P1 0.016 0 pressAttack1] versusWorld))
                    actorB)))
     = damagePercent actorB + 30.
Proof.
  destruct (C2_melee_once_per_instance fiveTicks versusWorld P1 Attack1Launched)
    as [Hcount Hblock].
  split; [|split].
  - assert (Hi : attackInstances P1 Attack1Launched fiveTicks versusWorld = 1%nat)
      by (vm_compute; reflexivity).
    assert (Hl : pendingAttack Attack1Launched (fighter P1 versusWorld) = false)
      by reflexivity.
    rewrite Hi, Hl in Hcount. cbn in Hcount. exact Hcount.
  - vm_compute. reflexivity.
  - apply Hblock.
    + vm_compute. reflexivity.
    + vm_compute. reflexivity.
    + reflexivity.
    + vm_compute. congruence.
Defined.


Lemma projAgainst_parried s fs pr :
  projReaches s fs pr = true ->
  parryArmed (getSide s fs) = true ->
  let r := projAgainst s fs pr in
  let d := getSide s fs in
  let d' := getSide s (fst (fst r)) in
  snd r = ProjParried
  /\ pr_alive (snd (fst r)) = false
  /\ damagePercent d' = damagePercent d /\ hp d' = hp d
  /\ parryConsumed d' = true /\ parryFreezeTimer d' = 0.15.
Proof.
  intros Hreach Harm. cbv zeta.
  pose proof (projAgainst_effect s fs pr s) as (_ & _ & Hpar & _).
  cbv zeta in Hpar.
  assert (Ho : snd (projAgainst s fs pr) = ProjParried
               /\ pr_alive (snd (fst (projAgainst s fs pr))) = false).
  { unfold projReaches in Hreach. unfold parryArmed in Harm.
    unfold projAgainst. cbv zeta. rewrite Hreach, Harm. split; reflexivity. }
  destruct Ho as [Ho Hk]. rewrite Ho in Hpar.
  destruct (Hpar eq_refl eq_refl) as (_ & Hc & _ & Hf & Hd & Hh).
  repeat split; assumption.
Qed.



(** ** The damage percent never falls *)

Lemma receiveHits_percent_le hits : forall f,
  Forall (fun ht => 0 <= percentIncrease ht) hits ->
  damagePercent f <= damagePercent (receiveHits hits f).
Proof.
  unfold receiveHits.
  induction hits as [|ht rest IH]; intros f Hall; cbn [fold_left].
  - apply Qle_refl.
  - inversion Hall as [|? ? Hht Hrest]; subst.
    eapply Qle_trans; [|apply IH; exact Hrest].
    unfold applyHit. apply receiveHit_percent_le. exact Hht.
Qed.

Lemma run_percent_le ops : forall wd s,
  Forall (fun op => isRespawn op = false) ops ->
  damagePercent (fighter s wd) <= damagePercent (fighter s (run ops wd)).
Proof.
  induction ops as [|op rest IH]; intros wd s Hall; cbn [run].
  - apply Qle_refl.
  - inversion Hall as [|? ? Hop Hrest]; subst.
    eapply Qle_trans; [apply percent_step; exact Hop|].
    apply IH. exact Hrest.
Qed.

(** C4: over any sequence of [receiveHit] calls with non-negative percent
    increase the damage percent is non-decreasing, and no operation of the
    loop other than P1's respawn ([damagePercent = 0]) lowers the damage
    percent of a combatant; the defeat writes leave it as it is. *)
Theorem C4_damagePercent_monotone :
  forall (hits : list Hit) (f : Fighter) (ops : list Op) (wd : World) (s : Side),
    (Forall (fun ht => 0 <= percentIncrease ht) hits ->
     damagePercent f <= damagePercent (receiveHits hits f))
    /\ (Forall (fun op => isRespawn op = false) ops ->
        damagePercent (fighter s wd) <= damagePercent (fighter s (run ops wd))).
Proof.
  intros hits f ops wd s. split.
  - apply receiveHits_percent_le.
  - apply run_percent_le.
Qed.

(** C4 on the three hits of the game loop (melee 30, reflected 20,
    projectile 8) and on the two-hit run. *)
Lemma C4_damagePercent_monotone_witness :
  damagePercent actorB
  <= damagePercent
       (receiveHits [mkHit 30 140 0.6 (Some Math_PI); mkHit 20 120 1 (Some angle0);
                     mkHit 8 90 0.9 (Some angle0)] actorB)
  /\ damagePercent (fighter P2 versusWorld)
     <= damagePercent (fighter P2 (run twoHits versusWorld)).
Proof.
  destruct (C4_damagePercent_monotone
              [mkHit 30 140 0.6 (Some Math_PI); mkHit 20 120 1 (Some angle0);
               mkHit 8 90 0.9 (Some angle0)] actorB twoHits versusWorld P2)
    as [Hhits Hrun].
  split.
  - apply Hhits. repeat constructor; cbn; lra.
  - apply Hrun. repeat constructor.
Defined.

(** ** A parried hit *)

(** A fighter with a hitbox is in one of the two attack states. *)
Lemma hitbox_state a h1 : hitbox a = Some h1 -> state a <> Defeat.
Proof.
  unfold hitbox. intros H Hd. rewrite Hd in H. cbn in H. discriminate.
Qed.

(** C6, as stated, fails on "both combatants receive a hit-freeze": on the
    tick B's armed parry meets A's attack, only B's [parryFreezeTimer] is set
    to 0.15; A's stays 0, and A gets the stun of the reflected hit (0.25 s). *)
Lemma C6_counterexample :
  meleeOutcomeOf P1 (run [OpUpdate P2 0.016 0 pressParry; OpUpdate P1 0.016 0 pressAttack1]
                       versusWorld)
  = ParryReflected Attack1Launched
  /\ parryFreezeTimer (fighter P2 (run parryTick versusWorld)) == 0.15
  /\ parryFreezeTimer (fighter P1 (run parryTick versusWorld)) == 0
  /\ ~ parryFreezeTimer (fighter P1 (run parryTick versusWorld)) == 0.15
  /\ stunTimer (fighter P1 (run parryTick versusWorld)) == 0.25.
Proof.
  repeat split; try (vm_compute; reflexivity).
  vm_compute. discriminate.
Qed.

(** C6 (amended): when A's attack hitbox overlaps B's hurtbox, the attack
    instance is still unresolved and B's parry is armed (parrying, not
    consumed), the melee block leaves B's damage percent and hit points as
    they are, consumes B's parry and sets B's [parryFreezeTimer] to 0.15; A's
    [parryFreezeTimer] is not written.  Unless A is also in a ranged action,
    A receives the reflected hit [receiveHit(20, 120, 1.0, angle)], so A's
    damage percent rises by 20; if A is ranging, nothing is reflected.  A
    projectile that reaches a fighter with an armed parry is negated: it
    dies, and the fighter's damage percent and hit points are unchanged, its
    parry consumed and its [parryFreezeTimer] set to 0.15. *)
Theorem C6_parry_resolution :
  forall (sp : bool) (a d : Fighter) (lf : LaunchFlag),
    meleeGuard (hitbox a) a d = Some lf ->
    parryArmed d = true ->
    let r := meleeBlock sp (hitbox a) a d in
    let a' := fst (fst r) in
    let d' := snd (fst r) in
    damagePercent d' = damagePercent d /\ hp d' = hp d
    /\ parryConsumed d' = true /\ parryFreezeTimer d' = 0.15
    /\ parryFreezeTimer a' = parryFreezeTimer a
    /\ (ranging a = false ->
        snd r = ParryReflected lf
        /\ a' = receiveHit 20 120 1
                  (Some (if Qltb (x d) (x a) then Math_PI else angle0))
                  (setLaunch lf true a)
        /\ damagePercent a' = damagePercent a + 20)
    /\ (ranging a = true -> snd r = ParryNegated lf /\ a' = setLaunch lf true a)
    /\ (forall s fs pr,
           projReaches s fs pr = true -> parryArmed (getSide s fs) = true ->
           let q := projAgainst s fs pr in
           snd q = ProjParried /\ pr_alive (snd (fst q)) = false
           /\ damagePercent (getSide s (fst (fst q))) = damagePercent (getSide s fs)
           /\ hp (getSide s (fst (fst q))) = hp (getSide s fs)
           /\ parryFreezeTimer (getSide s (fst (fst q))) = 0.15).
Proof.
  intros sp a d lf Hg Harm r a' d'.
  pose proof (meleeBlock_attacker sp (hitbox a) a d) as (_ & _ & _ & HaF & _).
  pose proof (meleeBlock_defender sp (hitbox a) a d) as (_ & _ & Hpar & _).
  cbv zeta in HaF, Hpar. fold r in HaF, Hpar. fold a' in HaF. fold d' in Hpar.
  assert (Hr : r = if ranging a
                   then (setLaunch lf true a,
                         set_parryFreezeTimer 0.15 (set_parryConsumed true d),
                         ParryNegated lf)
                   else (receiveHit 20 120 1
                           (Some (if Qltb (x d) (x a) then Math_PI else angle0))
                           (setLaunch lf true a),
                         set_parryFreezeTimer 0.15 (set_parryConsumed true d),
                         ParryReflected lf)).
  { unfold r. rewrite meleeBlock_cases, Hg. cbv zeta. rewrite Harm. reflexivity. }
  assert (Hisp : isParried (snd r) = true).
  { rewrite Hr. destruct (ranging a); reflexivity. }
  destruct (Hpar Hisp) as (_ & Hc & _ & Hf & Hd & Hh).
  refine (conj Hd (conj Hh (conj Hc (conj Hf (conj HaF (conj _ (conj _ _))))))).
  - intros Hrg. unfold a'. rewrite Hr, Hrg. cbn [fst snd].
    split; [reflexivity|]. split; [reflexivity|].
    apply meleeGuard_Some in Hg. destruct Hg as ((h1 & Hh1 & _) & _).
    rewrite receiveHit_percent.
    + destruct (setLaunch_frame lf true a) as (E & _). rewrite E. reflexivity.
    + destruct (setLaunch_frame lf true a) as (_ & _ & E & _). rewrite E.
      apply (hitbox_state a h1 Hh1).
  - intros Hrg. unfold a'. rewrite Hr, Hrg. split; reflexivity.
  - intros s fs pr Hreach Harm2. cbv zeta.
    destruct (projAgainst_parried s fs pr Hreach Harm2)
      as (Ho & Hk & Hpd & Hph & _ & Hpf).
    repeat split; assumption.
Qed.

(** C6 (amended) on the parry tick of the scenario. *)
Lemma C6_parry_resolution_witness :
  let wd := run [OpUpdate P2 0.016 0 pressParry; OpUpdate P1 0.016 0 pressAttack1]
              versusWorld in
  let r := meleeBlock false (hitbox (p1 wd)) (p1 wd) (p2 wd) in
  damagePercent (snd (fst r)) = damagePercent (p2 wd)
  /\ parryFreezeTimer (snd (fst r)) = 0.15
  /\ damagePercent (fst (fst r)) = damagePercent (p1 wd) + 20.
Proof.
  cbv zeta.
  set (wd := run [OpUpdate P2 0.016 0 pressParry; OpUpdate P1 0.016 0 pressAttack1]
               versusWorld).
  assert (Hg : meleeGuard (hitbox (p1 wd)) (p1 wd) (p2 wd) = Some Attack1Launched)
    by (vm_compute; reflexivity).
  assert (Harm : parryArmed (p2 wd) = true) by (vm_compute; reflexivity).
  destruct (C6_parry_resolution false (p1 wd) (p2 wd) Attack1Launched Hg Harm)
    as (Hd & _ & _ & Hf & _ & Hrefl & _).
  split; [exact Hd|]. split; [exact Hf|].
  apply Hrefl. vm_compute. reflexivity.
Defined.

(** ** The solidity query *)

Lemma clampZ_range lo hi v : (lo <= hi)%Z -> (lo <= clampZ lo hi v <= hi)%Z.
Proof. unfold clampZ. lia. Qed.

Lemma clampZ_lower lo hi v : (lo <= clampZ lo hi v)%Z.
Proof. unfold clampZ. lia. Qed.

Lemma samplePoint_range env cv img cx cy :
  (0 < width cv)%Z ->
  (0 <= fst (samplePoint env cv img cx cy) < width cv)%Z
  /\ (0 <= snd (samplePoint env cv img cx cy))%Z
  /\ ((0 < height cv)%Z -> (snd (samplePoint env cv img cx cy) < height cv)%Z).
Proof.
  intros Hw. unfold samplePoint. cbv zeta.
  destruct (coverRect env img) as [[[sx sy] sw] sh]. cbn [fst snd].
  repeat split.
  - apply clampZ_lower.
  - pose proof (clampZ_range 0 (width cv - 1)
                  (Math_floor (inject_Z sx
                     + inject_Z (clampZ 0 (WIDTH env - 1) (Math_floor cx))
                       / inject_Z (WIDTH env) * inject_Z sw))).
    lia.
  - apply clampZ_lower.
  - intros Hh.
    pose proof (clampZ_range 0 (height cv - 1)
                  (Math_floor (inject_Z sy
                     + inject_Z (clampZ 0 (HEIGHT env - 1) (Math_floor cy))
                       / inject_Z (HEIGHT env) * inject_Z sh))).
    lia.
Qed.

(** C7: [isSolidAtCanvasPoint] returns a boolean for every input and never
    throws; it answers "solid" only when the heatmap is ready and a sample,
    taken at a pixel clamped into the heatmap canvas, succeeded with an
    alpha above 128.  So it is [false] whenever the heatmap is not ready
    (missing context, canvas or image, zero-sized canvas or image) and
    whenever the sampling throws; out-of-range coordinates are clamped into
    the canvas, not treated as empty. *)
Theorem C7_isSolid_total_fail_closed :
  forall (env : Stage) (canvasX canvasY : Q),
    (exists b : bool,
        isSolidAtCanvasPoint env canvasX canvasY = b
        /\ (isSolidAtCanvasPoint_try env canvasX canvasY = Returns b
            \/ (isSolidAtCanvasPoint_try env canvasX canvasY = Throws /\ b = false)))
    /\ (isSolidAtCanvasPoint env canvasX canvasY = true ->
        exists ctx cv img d,
          heatmapCtx env = Some ctx /\ heatmapCanvas env = Some cv
          /\ stageImg env = Some img
          /\ (0 < width cv)%Z /\ (0 < naturalWidth img)%Z
          /\ (0 <= fst (samplePoint env cv img canvasX canvasY) < width cv)%Z
          /\ (0 <= snd (samplePoint env cv img canvasX canvasY))%Z
          /\ ((0 < height cv)%Z ->
              (snd (samplePoint env cv img canvasX canvasY) < height cv)%Z)
          /\ getImageData ctx (fst (samplePoint env cv img canvasX canvasY))
               (snd (samplePoint env cv img canvasX canvasY)) = Some d
          /\ alphaSolid d = true)
    /\ (~ heatmapReady env -> isSolidAtCanvasPoint env canvasX canvasY = false)
    /\ (isSolidAtCanvasPoint_try env canvasX canvasY = Throws ->
        isSolidAtCanvasPoint env canvasX canvasY = false).
Proof.
  intros env cx cy.
  assert (Htrue : isSolidAtCanvasPoint env cx cy = true ->
            exists ctx cv img d,
              heatmapCtx env = Some ctx /\ heatmapCanvas env = Some cv
              /\ stageImg env = Some img
              /\ (0 < width cv)%Z /\ (0 < naturalWidth img)%Z
              /\ (0 <= fst (samplePoint env cv img cx cy) < width cv)%Z
              /\ (0 <= snd (samplePoint env cv img cx cy))%Z
              /\ ((0 < height cv)%Z -> (snd (samplePoint env cv img cx cy) < height cv)%Z)
              /\ getImageData ctx (fst (samplePoint env cv img cx cy))
                   (snd (samplePoint env cv img cx cy)) = Some d
              /\ alphaSolid d = true).
  { unfold isSolidAtCanvasPoint, isSolidAtCanvasPoint_try.
    destruct (heatmapCtx env) as [ctx|]; [|discriminate].
    destruct (heatmapCanvas env) as [cv|]; [|discriminate].
    destruct (stageImg env) as [img|]; [|discriminate].
    destruct (0 <? width cv)%Z eqn:Hw; [|discriminate].
    destruct (0 <? naturalWidth img)%Z eqn:Hn; [|discriminate].
    cbn [andb].
    apply Z.ltb_lt in Hw. apply Z.ltb_lt in Hn.
    pose proof (samplePoint_range env cv img cx cy Hw) as (R1 & R2 & R3).
    destruct (samplePoint env cv img cx cy) as [px py] eqn:Esp. cbn [fst snd] in *.
    destruct (getImageData ctx px py) as [d|] eqn:Hd; [|discriminate].
    intros Hs. exists ctx, cv, img, d. rewrite Esp. cbn [fst snd].
    refine (conj eq_refl (conj eq_refl (conj eq_refl (conj Hw (conj Hn
              (conj R1 (conj R2 (conj R3 (conj Hd Hs))))))))). }
  split; [|split; [exact Htrue|split]].
  - unfold isSolidAtCanvasPoint.
    destruct (isSolidAtCanvasPoint_try env cx cy) as [b|].
    + exists b. split; [reflexivity|]. left. reflexivity.
    + exists false. split; [reflexivity|]. right. split; reflexivity.
  - intros Hnot.
    destruct (isSolidAtCanvasPoint env cx cy) eqn:Hs; [|reflexivity].
    exfalso. apply Hnot.
    destruct (Htrue eq_refl) as (ctx & cv & img & d & H1 & H2 & H3 & H4 & H5 & _).
    exists ctx, cv, img. repeat split; assumption.
  - intros Hthrow. unfold isSolidAtCanvasPoint. rewrite Hthrow. reflexivity.
Qed.

(** C7 at a point far outside the canvas (clamped to the bottom-left pixel,
    which is opaque), without heatmap, and with a throwing context. *)
Lemma C7_isSolid_total_fail_closed_witness :
  isSolidAtCanvasPoint demoHeatmap (-50) 10000 = true
  /\ samplePoint demoHeatmap (mkCanvas 100 50) (mkImage 100 50) (-50) 10000 = (0, 49)%Z
  /\ isSolidAtCanvasPoint noHeatmap (-50) 10000 = false
  /\ isSolidAtCanvasPoint brokenHeatmap 10 10 = false.
Proof.
  destruct (C7_isSolid_total_fail_closed brokenHeatmap 10 10) as (_ & _ & _ & Hthrow).
  destruct (C7_isSolid_total_fail_closed noHeatmap (-50) 10000) as (_ & _ & Hnot & _).
  split; [vm_compute; reflexivity|]. split; [vm_compute; reflexivity|]. split.
  - apply Hnot. unfold heatmapReady. intros (ctx & cv & img & H & _).
    discriminate H.
  - apply Hthrow. vm_compute. reflexivity.
Defined.

(** ** The controller at a ledge *)

(** [filterMove] never presses a key. *)
Lemma filterMove_pressed (ai : SimpleAI) (p2 : Fighter) (key : string)
    (dirRight : bool) (m : gmap string bool) (k : string) :
  pressed (filterMove ai p2 key dirRight m) k = true -> pressed m k = true.
Proof.
  assert (Hins : pressed (<[key := false]> m) k = true -> pressed m k = true).
  { unfold pressed. destruct (decide (key = k)) as [->|Hne].
    - rewrite lookup_insert_eq. discriminate.
    - rewrite lookup_insert_ne by exact Hne. auto. }
  unfold filterMove.
  destruct (pressed m key); [|auto].
  destruct (disallowMoveBeyondSpawn ai p2 dirRight); [exact Hins|].
  destruct (isSolidAt ai) as [solid|]; [|auto].
  destruct (onGround p2); [|auto].
  destruct (negb _); [exact Hins | auto].
Qed.

(** On a grounded fighter with a solidity predicate, [filterMove] releases
    the key whose lookahead sample is not solid. *)
Lemma filterMove_blocks (ai : SimpleAI) (p2 : Fighter) (key : string)
    (dirRight : bool) (m : gmap string bool) (solid : Z -> Z -> bool) :
  isSolidAt ai = Some solid ->
  onGround p2 = true ->
  solid (lookaheadX p2 (if dirRight then 1 else -1) (edgeLookahead ai)) (footY p2) = false ->
  pressed (filterMove ai p2 key dirRight m) key = false.
Proof.
  intros Hs Hg Hno. unfold filterMove.
  assert (Hins : pressed (<[key := false]> m) key = false).
  { unfold pressed. now rewrite lookup_insert_eq. }
  destruct (pressed m key) eqn:Hp; [|exact Hp].
  destruct (disallowMoveBeyondSpawn ai p2 dirRight); [exact Hins|].
  rewrite Hs, Hg, Hno. exact Hins.
Qed.

(** The filtered intent of a behaviour does satisfy the edge rule: the
    intent the filter hands on has the movement key released in a direction
    whose lookahead sample at foot height is not solid. *)
Lemma safeIntent_edge_rule (ai : SimpleAI) (p2 : Fighter)
    (intent : gmap string bool) (solid : Z -> Z -> bool) :
  isSolidAt ai = Some solid ->
  onGround p2 = true ->
  (solid (lookaheadX p2 (-1) (edgeLookahead ai)) (footY p2) = false ->
   pressed (safeIntentOf ai p2 intent) (leftKeyOf ai) = false)
  /\ (solid (lookaheadX p2 1 (edgeLookahead ai)) (footY p2) = false ->
      pressed (safeIntentOf ai p2 intent) (rightKeyOf ai) = false).
Proof.
  intros Hs Hg. unfold safeIntentOf. cbv zeta. split; intros Hno.
  - destruct (pressed (filterMove ai p2 (rightKeyOf ai) true
                         (filterMove ai p2 (leftKeyOf ai) false intent))
                (leftKeyOf ai)) eqn:Hp; [|reflexivity].
    apply filterMove_pressed in Hp.
    rewrite (filterMove_blocks ai p2 (leftKeyOf ai) false intent solid Hs Hg Hno) in Hp.
    discriminate.
  - apply (filterMove_blocks ai p2 (rightKeyOf ai) true _ solid Hs Hg Hno).
Qed.

(** C8 fails on the code at the ledge: the NPC is grounded, the sample at
    the lookahead distance to its left is not solid, and yet [update] leaves
    the left key pressed in the merged input (set by the chase rule after
    the heatmap test pressed the right key); with both keys pressed
    [Fighter.update] walks left.  With a behaviour plugged in, the filter
    does release the left key, but the reset and the chase rule that follow
    press it again. *)
Theorem C8_edge_intent_failing_input :
  let out := aiUpdate 0.016 ∅ ledgeNpc ledgePlayer [] ledgeAi in
  let merged := snd (fst out) in
  onGround ledgeNpc = true
  /\ ledgeSolid (lookaheadX ledgeNpc (-1) 48) (footY ledgeNpc) = false
  /\ pressed merged "left" = true
  /\ pressed merged "up" = false
  /\ x (update 0.016 0 (readInput npcFighterKeys merged) ledgeNpc) < x ledgeNpc
  /\ pressed (safeIntentOf ledgeAiBehavior ledgeNpc (<["left"%string := true]> ∅)) "left" = false
  /\ pressed (snd (fst (aiUpdate 0.016 ∅ ledgeNpc ledgePlayer [] ledgeAiBehavior))) "left" = true.
Proof.
  cbv zeta. repeat split; vm_compute; reflexivity.
Qed.

(** ** Which action conditions exclude each other *)

Lemma keepsCombat_parryExclusive f f' :
  keepsCombat f f' -> parryExclusive f -> parryExclusive f'.
Proof.
  intros (_ & _ & _ & _ & P & _ & A1 & A2 & R1 & R2) H Hp.
  rewrite P in Hp. rewrite A1, A2, R1, R2. apply H. exact Hp.
Qed.

Lemma parryStarts_flags inp f :
  parryStarts inp f = true ->
  attacking1 f = false /\ attacking2 f = false
  /\ ranging1 f = false /\ ranging2 f = false /\ hurt f = false.
Proof.
  unfold parryStarts. intros H.
  repeat (apply andb_true_iff in H; destruct H as [H ?]).
  repeat split;
    match goal with
    | Hn : negb ?b = true |- ?b = false => apply negb_true_iff; exact Hn
    end.
Qed.

Lemma actions_parryExclusive dt inp f :
  parryExclusive f -> parryExclusive (actions dt inp f).
Proof.
  intros Hex. unfold actions. destruct (flying f); [exact Hex|].
  cbn [negb]. cbv zeta.
  set (f1 := parryStep dt inp f).
  set (f2 := attack1Step dt inp f1).
  set (f3 := attack2Step dt inp f2).
  set (f4 := ranged1Step dt inp f3).
  destruct (parryStep_frame dt inp f)
    as (_ & _ & _ & _ & PA1 & PA2 & PR1 & PR2 & _).
  fold f1 in PA1, PA2, PR1, PR2.
  destruct (attack1Step_frame dt inp f1)
    as (_ & _ & _ & UP & _ & UA2 & UR1 & UR2 & _ & _ & _ & UA1).
  fold f2 in UP, UA2, UR1, UR2, UA1.
  destruct (attack2Step_frame dt inp f2)
    as (_ & _ & _ & TP & _ & TA1 & TR1 & TR2 & _ & _ & _ & TA2).
  fold f3 in TP, TA1, TR1, TR2, TA2.
  destruct (ranged1Step_frame dt inp f3)
    as (_ & _ & _ & _ & SP & _ & SA1 & SA2 & SR2 & _ & _ & SR1).
  fold f4 in SP, SA1, SA2, SR2, SR1.
  destruct (ranged2Step_frame inp f4)
    as (_ & _ & _ & _ & RP & _ & RA1 & RA2 & RR1 & _ & _ & RR2).
  intros Hp.
  assert (Hp1 : parrying f1 = true) by congruence.
  assert (Hf1 : attacking1 f1 = false /\ attacking2 f1 = false
                /\ ranging1 f1 = false /\ ranging2 f1 = false).
  { destruct (parryStep_parrying dt inp f Hp1) as [Hs | Hpf].
    - apply parryStarts_flags in Hs. destruct Hs as (H1 & H2 & H3 & H4 & _).
      repeat split; congruence.
    - destruct (Hex Hpf) as (H1 & H2 & H3 & H4). repeat split; congruence. }
  destruct Hf1 as (H1 & H2 & H3 & H4).
  assert (G1 : attacking1 f2 = false).
  { destruct (attacking1 f2) eqn:E; [|reflexivity].
    destruct (UA1 eq_refl) as [Hs | Ha]; [|congruence].
    unfold attack1Starts in Hs. rewrite Hp1 in Hs. cbn in Hs.
    rewrite andb_false_r in Hs. discriminate. }
  assert (G2 : attacking2 f3 = false).
  { destruct (attacking2 f3) eqn:E; [|reflexivity].
    destruct (TA2 eq_refl) as [Hs | Ha]; [|congruence].
    unfold attack2Starts in Hs. rewrite UP, Hp1 in Hs. cbn in Hs.
    rewrite andb_false_r in Hs. discriminate. }
  assert (G3 : ranging1 f4 = false).
  { destruct (ranging1 f4) eqn:E; [|reflexivity].
    destruct (SR1 eq_refl) as [Hs | Ha]; congruence. }
  assert (G4 : ranging2 (ranged2Step inp f4) = false).
  { destruct (ranging2 (ranged2Step inp f4)) eqn:E; [|reflexivity].
    destruct (RR2 eq_refl) as [Hs | Ha]; congruence. }
  repeat split; congruence.
Qed.

Lemma update_parryExclusive dt now inp f :
  parryExclusive f -> parryExclusive (update dt now inp f).
Proof.
  intros Hex. rewrite update_unfold.
  eapply keepsCombat_parryExclusive; [apply stateFallback_keepsCombat|].
  eapply keepsCombat_parryExclusive; [apply hurtStep_keepsCombat|].
  apply actions_parryExclusive.
  eapply keepsCombat_parryExclusive; [apply beforeActions_keepsCombat|].
  exact Hex.
Qed.

Lemma reachable_parryExclusive f : reachable f -> parryExclusive f.
Proof.
  induction 1 as [x0 y0 cw ch | dt now inp f _ IH | pct kb str ang f _ IH
                  | n f _ IH | yTop f _ IH | nx ny nvx nvy nf g f _ IH
                  | sx sy f _ IH | f _ IH | f _ IH | f _ IH | n m f _ IH
                  | lf f _ IH | f _ IH | f _ IH].
  - intros Hp. discriminate Hp.
  - apply update_parryExclusive. exact IH.
  - destruct (receiveHit_frame pct kb str ang f)
      as (_ & _ & _ & _ & _ & _ & _ & A1 & A2 & P & R1 & R2 & _).
    intros Hp. rewrite P in Hp. rewrite A1, A2, R1, R2. apply IH. exact Hp.
  - destruct (takeDamage_frame n f) as (_ & _ & _ & P & _ & A1 & A2 & R1 & R2 & _).
    intros Hp. rewrite P in Hp. rewrite A1, A2, R1, R2. apply IH. exact Hp.
  - eapply keepsCombat_parryExclusive; [apply landAt_keepsCombat | exact IH].
  - eapply keepsCombat_parryExclusive; [apply stageWrite_keepsCombat | exact IH].
  - unfold parryExclusive, offBottomP1, clearActions. cbv zeta.
    destruct (stocks _ <=? 0)%Z; cbn; [discriminate | exact IH].
  - unfold parryExclusive, offBottomNPC, clearActions. cbn. discriminate.
  - unfold parryExclusive, autoDefeat, clearActions.
    destruct (isDefeated f && negb (isDefeatState f)); cbn; [discriminate | exact IH].
  - exact IH.
  - exact IH.
  - destruct lf; exact IH.
  - exact IH.
  - exact IH.
Qed.

(** Both combatants of a run are reachable fighters, as long as the
    controller does not arm the parry directly. *)
Lemma step_reachable op wd :
  op <> OpAiParry ->
  reachable (p1 wd) -> reachable (p2 wd) ->
  reachable (p1 (step op wd)) /\ reachable (p2 (step op wd)).
Proof.
  intros Hop R1 R2.
  assert (Hblock : forall sp hb a d, reachable a -> reachable d ->
            reachable (fst (fst (meleeBlock sp hb a d)))
            /\ reachable (snd (fst (meleeBlock sp hb a d)))).
  { intros sp hb a d Ra Rd. rewrite meleeBlock_cases.
    destruct (meleeGuard hb a d) as [lf|]; [|split; assumption]. cbv zeta.
    destruct (parryArmed d); [destruct (ranging a)|destruct sp]; cbn [fst snd];
      split; repeat (first [ assumption | apply reach_receiveHit | apply reach_takeDamage
                           | apply reach_launch | apply reach_parried ]). }
  assert (Hranged : forall pr d, reachable d -> reachable (rangedHit pr d)).
  { intros pr d Rd. unfold rangedHit. cbv zeta. destruct (applyKnockbackOnHit pr).
    - apply reach_receiveHit, reach_takeDamage, Rd.
    - apply reach_percent, reach_takeDamage, Rd. }
  assert (Hstun : forall o fs, reachable (fst fs) -> reachable (snd fs) ->
            reachable (fst (stunOwner o fs)) /\ reachable (snd (stunOwner o fs))).
  { intros [[|]|] [f1 f2] Ra Rb; cbn in *; split;
      try assumption; apply reach_stunned; assumption. }
  assert (Hagainst : forall s0 fs pr, reachable (fst fs) -> reachable (snd fs) ->
            reachable (fst (fst (fst (projAgainst s0 fs pr))))
            /\ reachable (snd (fst (fst (projAgainst s0 fs pr))))).
  { intros s0 fs pr Ra Rb. unfold projAgainst. cbv zeta.
    assert (Rs : reachable (getSide s0 fs)) by (destruct s0; assumption).
    destruct (negb (bool_decide (pr_owner pr = Some s0)) && _);
      [|split; assumption].
    destruct (parrying (getSide s0 fs) && negb (parryConsumed (getSide s0 fs))).
    - cbn [fst snd]. apply Hstun; destruct s0, fs as [f1 f2]; cbn in *;
        try assumption; apply reach_parried; assumption.
    - destruct (negb _ || _); cbn [fst snd]; [|split; assumption].
      destruct s0, fs as [f1 f2]; cbn in *; split; try assumption;
        apply Hranged; assumption. }
  assert (Hloop : forall env prs fs, reachable (fst fs) -> reachable (snd fs) ->
            reachable (fst (fst (fst (projLoop env fs prs))))
            /\ reachable (snd (fst (fst (projLoop env fs prs))))).
  { intros env prs. induction prs as [|pr rest IH]; intros fs Ra Rb;
      [split; assumption|].
    cbn [projLoop].
    assert (Hs : reachable (fst (stepFighters (projStep env fs pr)))
                 /\ reachable (snd (stepFighters (projStep env fs pr)))).
    { unfold projStep, stepFighters.
      destruct (negb (pr_alive pr)); [split; assumption|]. cbv zeta.
      destruct (isSolidAtCanvasPoint env _ _); [split; assumption|].
      pose proof (Hagainst P1 fs pr Ra Rb) as [A1 B1].
      destruct (projAgainst P1 fs pr) as [[fs1 pr1] o1]. cbn [fst snd] in A1, B1.
      pose proof (Hagainst P2 fs1 pr1 A1 B1) as [A2 B2].
      destruct (projAgainst P2 fs1 pr1) as [[fs2 pr2] o2]. cbn [fst snd] in *.
      split; assumption. }
    unfold stepFighters in Hs.
    destruct (projStep env fs pr) as [[[fs1 pr1] o1] o2]. cbn [fst snd] in Hs.
    destruct Hs as [A1 B1]. pose proof (IH fs1 A1 B1) as H.
    destruct (projLoop env fs1 rest) as [[fs2 rest2] os]. cbn [fst snd] in *.
    exact H. }
  destruct op; cbn [step]; try congruence.
  - destruct s; cbn; split; try assumption; apply reach_update; assumption.
  - destruct s; cbn; split; try assumption; apply reach_landAt; assumption.
  - destruct s; cbn; split; try assumption; apply reach_stageWrite; assumption.
  - cbn. split; [apply reach_offBottomP1|]; assumption.
  - cbn. split; [|apply reach_offBottomNPC]; assumption.
  - cbn. split; assumption.
  - rewrite meleePass_blocks. cbn [fst p1 p2 set_fighter].
    destruct (Hblock (npcController wd) (hitbox (p1 wd)) (p1 wd) (p2 wd) R1 R2)
      as [Ra1 Rd2].
    fold (block1 wd) in Ra1, Rd2.
    destruct (Hblock (npcController wd) (hitbox (p2 wd)) _ _ Rd2 Ra1) as [Ra2 Rd1].
    fold (block2 wd) in Ra2, Rd1.
    split; assumption.
  - unfold projectilePass.
    pose proof (Hloop (stage wd) (projectiles wd) (p1 wd, p2 wd) R1 R2) as H.
    destruct (projLoop (stage wd) (p1 wd, p2 wd) (projectiles wd)) as [[fs prs] os].
    cbn [fst snd p1 p2] in *. exact H.
  - cbn. split; apply reach_autoDefeat; assumption.
Qed.

(** C9, as stated, fails: a reachable fighter with two of the five
    conditions true, neither of them parry or hurt. *)
Lemma C9_counterexample :
  reachable attackAndShoot
  /\ attacking attackAndShoot = true /\ ranging attackAndShoot = true
  /\ activeConditions attackAndShoot = 2%nat.
Proof.
  split; [apply reach_update, reach_new|].
  repeat split; vm_compute; reflexivity.
Qed.

(** C9 (amended): of the five action conditions only the parry is kept
    exclusive, and only against attacking and ranging.  In every state a
    fighter reaches through its own methods and the writes of the game loop,
    [parrying] is never true together with [attacking1], [attacking2],
    [ranging1] or [ranging2]; and [update] starts a parry only when the
    fighter is not flying, attacking, ranging or hurt.  (Attacking, ranging,
    hurt and flying may be true together, and so may parry with hurt or
    flying.) *)
Theorem C9_parry_excludes_attack_and_ranged :
  forall (f : Fighter),
    reachable f ->
    (parrying f = true -> attacking f = false /\ ranging f = false)
    /\ (forall dt now inp,
           updateStartsParry dt now inp f = true ->
           let g := beforeActions dt now inp f in
           flying g = false /\ attacking g = false /\ ranging g = false
           /\ hurt g = false).
Proof.
  intros f Hr. split.
  - intros Hp. destruct (reachable_parryExclusive f Hr Hp) as (A1 & A2 & R1 & R2).
    unfold attacking, ranging. rewrite A1, A2, R1, R2. split; reflexivity.
  - intros dt now inp Hs. cbv zeta. unfold updateStartsParry in Hs. cbv zeta in Hs.
    apply andb_true_iff in Hs. destruct Hs as [Hfly Hst].
    apply negb_true_iff in Hfly.
    apply parryStarts_flags in Hst. destruct Hst as (A1 & A2 & R1 & R2 & Hh).
    unfold attacking, ranging. rewrite A1, A2, R1, R2. repeat split; assumption.
Qed.

(** The amended C9 on B after the parry tick of the scenario. *)
Lemma C9_parry_excludes_attack_and_ranged_witness :
  reachable (update 0.016 0 pressParry actorB)
  /\ parrying (update 0.016 0 pressParry actorB) = true
  /\ attacking (update 0.016 0 pressParry actorB) = false
  /\ ranging (update 0.016 0 pressParry actorB) = false.
Proof.
  assert (Hr : reachable (update 0.016 0 pressParry actorB))
    by (apply reach_update, reach_new).
  assert (Hp : parrying (update 0.016 0 pressParry actorB) = true)
    by (vm_compute; reflexivity).
  destruct (C9_parry_excludes_attack_and_ranged _ Hr) as [Hex _].
  destruct (Hex Hp) as [Ha Hg].
  repeat split; assumption.
Defined.
